(** * Borderlands 4 save-file codec: [src/utils/saveDecryptor.ts]

  A shallow embedding of the save codec (key derivation, PKCS7 padding,
  Adler-32, the decrypt and encrypt pipelines) together with the
  ECMAScript operations it relies on, followed by the properties of the
  codec stated in the specification. *)

From Stdlib Require Import ZArith List String Ascii Bool Lia.
From Stdlib Require DecimalString.
Import ListNotations.
Local Open Scope Z_scope.

(* ===================================================================== *)
(** * ECMAScript values and operators used by the codec *)
(* ===================================================================== *)

Module JS.

(** A [Uint8Array] (and a plain array of numbers): its elements in order. *)
Definition bytes := list Z.

(** A JavaScript string: its UTF-16 code units, as [charCodeAt] returns
    them. *)
Definition jsstring := list Z.

Definition len {A} (l : list A) : Z := Z.of_nat (List.length l).

(** Code units of an ASCII literal. *)
Fixpoint str (s : string) : jsstring :=
  match s with
  | EmptyString => []
  | String c s' => Z.of_N (N_of_ascii c) :: str s'
  end.

(** ** Number conversions and the 32-bit operators *)

Definition ToInt32 (x : Z) : Z := (x + 2 ^ 31) mod 2 ^ 32 - 2 ^ 31.
Definition ToUint32 (x : Z) : Z := x mod 2 ^ 32.
Definition ToUint8 (x : Z) : Z := x mod 256.

(** [undefined] converts to 0 under the bitwise operators. *)
Definition num (v : option Z) : Z :=
  match v with Some x => x | None => 0 end.

(** [x << n] *)
Definition shl (x n : Z) : Z := ToInt32 (Z.shiftl (ToInt32 x) (Z.land n 31)).
(** [x >> n] *)
Definition sar (x n : Z) : Z := Z.shiftr (ToInt32 x) (Z.land n 31).
(** [x >>> n] *)
Definition shr (x n : Z) : Z := Z.shiftr (ToUint32 x) (Z.land n 31).
(** [x & y], [x | y], [x ^ y] *)
Definition band (x y : Z) : Z := Z.land (ToInt32 x) (ToInt32 y).
Definition bor (x y : Z) : Z := Z.lor (ToInt32 x) (ToInt32 y).
Definition bxor (x y : Z) : Z := Z.lxor (ToInt32 x) (ToInt32 y).
(** [x % y] on integers, [y] non-zero: the remainder has the sign of [x]. *)
Definition rem (x y : Z) : Z := Z.rem x y.

(** ** Completions: a call returns or throws *)

Inductive exn : Type :=
| Error (msg : string)
| RangeError
| SyntaxError
| LibraryError (msg : string).

Inductive completion (A : Type) : Type :=
| Normal (a : A)
| Throw (e : exn).
Arguments Normal {A} a.
Arguments Throw {A} e.

Definition bindC {A B} (c : completion A) (k : A -> completion B)
  : completion B :=
  match c with
  | Normal a => k a
  | Throw e => Throw e
  end.

(** ** Observable effects: console output and calls to [pako.inflate] *)

Inductive event : Type :=
| ConsoleWarn (msg : string)
| ConsoleLog (msg : string)
| PakoInflate (input : bytes).

(** An effectful computation: the events it emitted, in order, and how it
    completed. *)
Definition M (A : Type) : Type := (list event * completion A)%type.

Definition ret {A} (a : A) : M A := ([], Normal a).
Definition throw {A} (e : exn) : M A := ([], Throw e).
Definition emit (ev : event) : M unit := ([ev], Normal tt).
Definition lift {A} (c : completion A) : M A := ([], c).

Definition bindM {A B} (m : M A) (k : A -> M B) : M B :=
  match m with
  | (t, Normal a) => let (t', r) := k a in (t ++ t', r)
  | (t, Throw e) => (t, Throw e)
  end.

(** [try { m } catch (e) { h e }] *)
Definition try_catch {A} (m : M A) (h : exn -> M A) : M A :=
  match m with
  | (t, Throw e) => let (t', r) := h e in (t ++ t', r)
  | (t, Normal a) => (t, Normal a)
  end.

(** ** Typed arrays *)

(** [buf[i]]: [None] is [undefined], for an index outside the array. *)
Definition get (buf : list Z) (i : Z) : option Z :=
  if (i <? 0) then None else nth_error buf (Z.to_nat i).

(** [buf[i] = v] on a [Uint8Array]: stores [v] modulo 256; a write outside
    the array is ignored. *)
Fixpoint store_nat (buf : bytes) (i : nat) (v : Z) : bytes :=
  match buf, i with
  | [], _ => []
  | _ :: tl, O => ToUint8 v :: tl
  | x :: tl, S i' => x :: store_nat tl i' v
  end.
Definition store (buf : bytes) (i : Z) (v : Z) : bytes :=
  if (i <? 0) then buf else store_nat buf (Z.to_nat i) v.

(** [new Uint8Array(n)]: [n] zero bytes; a negative length is a
    [RangeError]. *)
Definition Uint8Array_new (n : Z) : completion bytes :=
  if (n <? 0) then Throw RangeError else Normal (repeat 0 (Z.to_nat n)).

(** [new Uint8Array(buf)] for a typed array [buf]: a copy. *)
Definition Uint8Array_copy (buf : bytes) : bytes := buf.

(** A relative index of [subarray], clamped to the array. *)
Definition clamp (i n : Z) : Z :=
  if (i <? 0) then Z.max (n + i) 0 else Z.min i n.

(** [buf.subarray(b, e)] *)
Definition subarray (buf : bytes) (b e : Z) : bytes :=
  let b' := clamp b (len buf) in
  let e' := clamp e (len buf) in
  firstn (Z.to_nat (e' - b')) (skipn (Z.to_nat b') buf).

(** [tgt.set(src, offset)] for a typed array [src]: the elements of [src]
    overwrite [tgt] from [offset]; a source that does not fit is a
    [RangeError]. *)
Definition set (tgt src : bytes) (offset : Z) : completion bytes :=
  if (offset <? 0) || (len tgt <? offset + len src) then Throw RangeError
  else Normal (firstn (Z.to_nat offset) tgt ++ src
               ++ skipn (Z.to_nat (offset + len src)) tgt).

(** [tgt.set([v0, v1, ...], offset)] for a plain array of numbers: each
    number is stored modulo 256. *)
Definition set_array (tgt : bytes) (src : list Z) (offset : Z)
  : completion bytes :=
  set tgt (map ToUint8 src) offset.

(** [buf.fill(v, start)] with [0 <= start]. *)
Definition fill (buf : bytes) (v start : Z) : bytes :=
  let s := Z.to_nat (clamp start (len buf)) in
  firstn s buf ++ repeat (ToUint8 v) (List.length buf - s).

End JS.

Import JS.

Declare Scope js_scope.
Delimit Scope js_scope with js.
Notation "x <- c ;; k" := (bindM c (fun x => k))
(at level 61, c at next level, right associativity) : js_scope.
Notation "c ;;; k" := (bindM c (fun _ => k))
(at level 61, right associativity) : js_scope.
Notation "x <~ c ;; k" := (bindC c (fun x => k))
(at level 61, c at next level, right associativity) : js_scope.
Local Open Scope js_scope.

(* ===================================================================== *)
(** * Regular expressions, matched by derivatives *)
(* ===================================================================== *)

Module Regex.

Inductive regex : Type :=
| Void
| Eps
| Class (p : Z -> bool)
| Seq (r1 r2 : regex)
| Alt (r1 r2 : regex)
| Star (r : regex).

Fixpoint nullable (r : regex) : bool :=
  match r with
  | Void => false
  | Eps => true
  | Class _ => false
  | Seq r1 r2 => nullable r1 && nullable r2
  | Alt r1 r2 => nullable r1 || nullable r2
  | Star _ => true
  end.

Fixpoint deriv (c : Z) (r : regex) : regex :=
  match r with
  | Void => Void
  | Eps => Void
  | Class p => if p c then Eps else Void
  | Seq r1 r2 =>
      if nullable r1 then Alt (Seq (deriv c r1) r2) (deriv c r2)
      else Seq (deriv c r1) r2
  | Alt r1 r2 => Alt (deriv c r1) (deriv c r2)
  | Star r1 => Seq (deriv c r1) (Star r1)
  end.

(** The whole of [s] matches [r]. *)
Fixpoint matches (r : regex) (s : jsstring) : bool :=
  match s with
  | [] => nullable r
  | c :: s' => matches (deriv c r) s'
  end.

(** [r{n,}] *)
Fixpoint at_least (n : nat) (r : regex) : regex :=
  match n with
  | O => Star r
  | S n' => Seq r (at_least n' r)
  end.

(** [\d]: the ten ASCII digits, with or without the unicode flag. *)
Definition digit (c : Z) : bool := (48 <=? c) && (c <=? 57).

(** [/^r$/.test(s)] without the multiline flag: [^] and [$] anchor the match
    at both ends of the input, so the test is a match of the whole string. *)
Definition test_anchored (r : regex) (s : jsstring) : bool := matches r s.

End Regex.

(* ===================================================================== *)
(** * The codec *)
(* ===================================================================== *)

Module SaveDecryptor.

Import Regex.

Definition BASE_KEY : bytes :=
  [ 0x35; 0xec; 0x33; 0x77; 0xf3; 0x5d; 0xb0; 0xea;
    0xbe; 0x6b; 0x83; 0x11; 0x54; 0x03; 0xeb; 0xfb;
    0x27; 0x25; 0x64; 0x2e; 0xd5; 0x49; 0x06; 0x29;
    0x05; 0x78; 0xbd; 0x60; 0xba; 0x4a; 0xa7; 0x87 ].

(** [utf16leBytes]: for each code unit, its low byte then its high byte. *)
Fixpoint utf16leBytes (str : jsstring) : list Z :=
  match str with
  | [] => []
  | code :: rest =>
      band code 0xff :: band (sar code 8) 0xff :: utf16leBytes rest
  end.

(** [BigInt(s)] on the strings modelled here: the empty string is [0n], a
    string of decimal digits is its value, and a string with another
    character is a [SyntaxError].  (The forms with white space, a sign or a
    radix prefix cannot reach the call in [deriveKey], which the pattern
    guards.) *)
Fixpoint BigInt_from (acc : Z) (s : jsstring) : completion Z :=
  match s with
  | [] => Normal acc
  | c :: s' =>
      if digit c then BigInt_from (10 * acc + (c - 48)) s'
      else Throw SyntaxError
  end.
Definition BigInt (s : jsstring) : completion Z := BigInt_from 0 s.

(** [/^\d{17,}$/] *)
Definition steam_pattern : regex := at_least 17 (Class digit).

(** The loop [for (i = 0; i < 8; i++) { push(Number(sid & 0xffn)); sid >>= 8n }]
    with [n] iterations left. *)
Fixpoint steam_loop (n : nat) (sid : Z) (uid_bytes : list Z) : list Z :=
  match n with
  | O => uid_bytes
  | S n' => steam_loop n' (Z.shiftr sid 8) (uid_bytes ++ [Z.land sid 0xff])
  end.

(** The identity bytes [uid_bytes] that [deriveKey] computes. *)
Definition uid_bytes_of (userID : jsstring) : completion (list Z) :=
  if test_anchored steam_pattern userID then
    sid <~ BigInt userID ;;
    Normal (steam_loop 8 sid [])
  else
    Normal (utf16leBytes userID).

(** The loop [for (i = ..; i < min; i++) k[i] ^= uid_bytes[i]] from index [i]
    with [n] iterations left. *)
Fixpoint xor_loop (n : nat) (i : Z) (k : bytes) (uid_bytes : list Z)
  : bytes :=
  match n with
  | O => k
  | S n' =>
      xor_loop n' (i + 1)
        (store k i (bxor (num (get k i)) (num (get uid_bytes i))))
        uid_bytes
  end.

Definition deriveKey (userID : jsstring) : completion bytes :=
  let k := Uint8Array_copy BASE_KEY in
  uid_bytes <~ uid_bytes_of userID ;;
  Normal (xor_loop (Z.to_nat (Z.min (len k) (len uid_bytes))) 0 k uid_bytes).

(** ** PKCS7 padding *)

(** [x !== v] for an array element [x] (possibly [undefined]) and a number
    [v]. *)
Definition strict_neq (x : option Z) (v : Z) : bool :=
  match x with
  | Some y => negb (y =? v)
  | None => true
  end.

(** The checking loop of [pkcs7Unpad] from index [i] with [n] iterations
    left: [true] when some [buf[buf.length - i] !== pad]. *)
Fixpoint unpad_mismatch (n : nat) (i : Z) (buf : bytes) (pad : Z) : bool :=
  match n with
  | O => false
  | S n' =>
      if strict_neq (get buf (len buf - i)) pad then true
      else unpad_mismatch n' (i + 1) buf pad
  end.

Definition pkcs7Unpad (buf : bytes) : M bytes :=
  match get buf (len buf - 1) with
  | None =>
      (* [pad] is [undefined]: the guard [1 <= pad] is false, and the length
         [buf.length - pad] is [NaN], which [new Uint8Array] and [subarray]
         read as 0. *)
      lift (unpadded <~ Uint8Array_new 0 ;;
            set unpadded (subarray buf 0 0) 0)
  | Some pad =>
      if unpad_mismatch (Z.to_nat pad) 1 buf pad then
        emit (ConsoleWarn "PKCS7 unpad failed, returning padded data") ;;;
        ret (Uint8Array_copy buf)
      else
        lift (unpadded <~ Uint8Array_new (len buf - pad) ;;
              set unpadded (subarray buf 0 (len buf - pad)) 0)
  end.

(** [blockSize] is a non-zero integer ([x % 0] is [NaN], which is not
    modelled); the callers use the default, 16. *)
Definition pkcs7Pad (buf : bytes) (blockSize : Z) : completion bytes :=
  let pad := blockSize - rem (len buf) blockSize in
  out <~ Uint8Array_new (len buf + pad) ;;
  out <~ set out buf 0 ;;
  Normal (fill out pad (len buf)).

(** ** CryptoJS word arrays *)

Record WordArray : Type := { words : list Z; sigBytes : Z }.

(** One word of [uint8ArrayToWordArray]:
    [(b0 << 24) | (b1 << 16) | (b2 << 8) | b3]. *)
Definition pack_word (b0 b1 b2 b3 : option Z) : Z :=
  bor (bor (bor (shl (num b0) 24) (shl (num b1) 16)) (shl (num b2) 8))
    (num b3).

(** The loop [for (i = 0; i < len; i += 4)] of [uint8ArrayToWordArray]: one
    word for every four bytes; the bytes read past the end of a last, short
    group are [undefined]. *)
Fixpoint pack_words (u8arr : bytes) : list Z :=
  match u8arr with
  | [] => []
  | b0 :: b1 :: b2 :: b3 :: rest =>
      pack_word (Some b0) (Some b1) (Some b2) (Some b3) :: pack_words rest
  | [b0; b1; b2] => [pack_word (Some b0) (Some b1) (Some b2) None]
  | [b0; b1] => [pack_word (Some b0) (Some b1) None None]
  | [b0] => [pack_word (Some b0) None None None]
  end.

Definition uint8ArrayToWordArray (u8arr : bytes) : WordArray :=
  {| words := pack_words u8arr; sigBytes := len u8arr |}.

(** The four bytes read back from a word:
    [(w >> 24) & 0xff, (w >> 16) & 0xff, (w >> 8) & 0xff, w & 0xff]. *)
Definition word_bytes (w : Z) : list Z :=
  [ band (sar w 24) 0xff; band (sar w 16) 0xff; band (sar w 8) 0xff;
    band w 0xff ].

(** The loop [for (i = ..; i < words.length; i++) out.set([...], i * 4)]. *)
Fixpoint words_loop (ws : list Z) (i : Z) (out : bytes) : completion bytes :=
  match ws with
  | [] => Normal out
  | w :: rest =>
      out' <~ set_array out (word_bytes w) (i * 4) ;;
      words_loop rest (i + 1) out'
  end.

(** The conversion of a word array back to a [Uint8Array], as both
    [decryptSave] and [encryptSave] write it out. *)
Definition wordsToBytes (ws : list Z) : completion bytes :=
  out <~ Uint8Array_new (len ws * 4) ;;
  words_loop ws 0 out.

(** ** The libraries found on [window] *)

(** [CryptoJS.AES] in ECB mode without padding: message (or ciphertext) and
    key to the resulting word array. *)
Record CryptoJSLib : Type := {
  AES_encrypt : WordArray -> WordArray -> WordArray;
  AES_decrypt : WordArray -> WordArray -> WordArray
}.

(** [pako.deflate(bytes, {level: 9})] and [pako.inflate(bytes)].  The latter
    throws on a stream it cannot inflate, and otherwise returns the inflated
    bytes or nothing: [None] is the return value [undefined], which pako
    gives when the input ends before the stream does. *)
Record PakoLib : Type := {
  deflate : bytes -> bytes;
  inflate : bytes -> completion (option bytes)
}.

Record Window : Type := {
  CryptoJS : option CryptoJSLib;
  pako : option PakoLib
}.

(** ** [TextEncoder] and [TextDecoder] (UTF-8) *)

Definition is_high_surrogate (c : Z) : bool := (0xD800 <=? c) && (c <=? 0xDBFF).
Definition is_low_surrogate (c : Z) : bool := (0xDC00 <=? c) && (c <=? 0xDFFF).

(** UTF-8 bytes of a scalar value. *)
Definition utf8_of_code_point (cp : Z) : bytes :=
  if cp <? 0x80 then [cp]
  else if cp <? 0x800 then [0xC0 + cp / 64; 0x80 + cp mod 64]
  else if cp <? 0x10000 then
    [0xE0 + cp / 4096; 0x80 + (cp / 64) mod 64; 0x80 + cp mod 64]
  else
    [0xF0 + cp / 262144; 0x80 + (cp / 4096) mod 64;
     0x80 + (cp / 64) mod 64; 0x80 + cp mod 64].

(** [new TextEncoder().encode(s)]: surrogate pairs are combined, a lone
    surrogate becomes U+FFFD. *)
Fixpoint TextEncoder_encode (s : jsstring) : bytes :=
  match s with
  | [] => []
  | c :: rest =>
      if is_high_surrogate c then
        match rest with
        | d :: rest' =>
            if is_low_surrogate d then
              utf8_of_code_point
                (0x10000 + (c - 0xD800) * 0x400 + (d - 0xDC00))
                ++ TextEncoder_encode rest'
            else utf8_of_code_point 0xFFFD ++ TextEncoder_encode rest
        | [] => utf8_of_code_point 0xFFFD
        end
      else if is_low_surrogate c then
        utf8_of_code_point 0xFFFD ++ TextEncoder_encode rest
      else utf8_of_code_point c ++ TextEncoder_encode rest
  end.

(** The state of the UTF-8 decoder of the Encoding standard. *)
Record utf8_state : Type := {
  code_point : Z;
  bytes_seen : Z;
  bytes_needed : Z;
  lower_boundary : Z;
  upper_boundary : Z
}.

Definition utf8_init : utf8_state :=
  {| code_point := 0; bytes_seen := 0; bytes_needed := 0;
     lower_boundary := 0x80; upper_boundary := 0xBF |}.

(** A byte read when no byte is needed: the code points emitted and the next
    state. *)
Definition utf8_lead (b : Z) : list Z * utf8_state :=
  if b <=? 0x7F then ([b], utf8_init)
  else if (0xC2 <=? b) && (b <=? 0xDF) then
    ([], {| code_point := Z.land b 0x1F; bytes_seen := 0; bytes_needed := 1;
            lower_boundary := 0x80; upper_boundary := 0xBF |})
  else if (0xE0 <=? b) && (b <=? 0xEF) then
    ([], {| code_point := Z.land b 0xF; bytes_seen := 0; bytes_needed := 2;
            lower_boundary := if b =? 0xE0 then 0xA0 else 0x80;
            upper_boundary := if b =? 0xED then 0x9F else 0xBF |})
  else if (0xF0 <=? b) && (b <=? 0xF4) then
    ([], {| code_point := Z.land b 0x7; bytes_seen := 0; bytes_needed := 3;
            lower_boundary := if b =? 0xF0 then 0x90 else 0x80;
            upper_boundary := if b =? 0xF4 then 0x8F else 0xBF |})
  else ([0xFFFD], utf8_init).

(** One byte of input. *)
Definition utf8_step (st : utf8_state) (b : Z) : list Z * utf8_state :=
  if bytes_needed st =? 0 then utf8_lead b
  else if (b <? lower_boundary st) || (upper_boundary st <? b) then
    (* the sequence is cut short: U+FFFD, and the byte is read again *)
    let (out, st') := utf8_lead b in (0xFFFD :: out, st')
  else
    let cp := Z.lor (Z.shiftl (code_point st) 6) (Z.land b 0x3F) in
    if bytes_seen st + 1 =? bytes_needed st then ([cp], utf8_init)
    else ([], {| code_point := cp; bytes_seen := bytes_seen st + 1;
                 bytes_needed := bytes_needed st;
                 lower_boundary := 0x80; upper_boundary := 0xBF |}).

Fixpoint utf8_decode_from (st : utf8_state) (input : bytes) : list Z :=
  match input with
  | [] => if bytes_needed st =? 0 then [] else [0xFFFD]
  | b :: rest =>
      let (out, st') := utf8_step st b in out ++ utf8_decode_from st' rest
  end.

(** UTF-16 code units of a code point. *)
Definition utf16_of_code_point (cp : Z) : list Z :=
  if cp <? 0x10000 then [cp]
  else [0xD800 + (cp - 0x10000) / 0x400; 0xDC00 + (cp - 0x10000) mod 0x400].

(** [new TextDecoder().decode(bytes)]: UTF-8, not fatal, a leading byte order
    mark is dropped. *)
Definition TextDecoder_decode (input : bytes) : jsstring :=
  let input' :=
    match input with
    | 0xEF :: 0xBB :: 0xBF :: rest => rest
    | _ => input
    end in
  flat_map utf16_of_code_point (utf8_decode_from utf8_init input').

(** ** [decryptSave] *)

(** [String(n)] for an integer [n]. *)
Definition String_of_number (n : Z) : string :=
  DecimalString.NilZero.string_of_int (Z.to_int n).

(** [`${trimUsed}`], for [trimUsed] a number or [null]. *)
Definition String_of_trimUsed (trimUsed : option Z) : string :=
  match trimUsed with
  | Some n => String_of_number n
  | None => "null"
  end.

(** One iteration of [for (let trim of trimOptions)], inside its [try]:
    [None] for [continue], [Some inflated] when [pako.inflate] returned, the
    assignments to [inflated] and [trimUsed] were made and the loop breaks;
    [inflated] is then whatever [pako.inflate] returned, [undefined]
    included. *)
Definition trim_body (pk : PakoLib) (pt : bytes) (trim : Z)
  : M (option (option bytes)) :=
  let candidateLen := len pt - trim in
  candidate <- lift (Uint8Array_new candidateLen) ;;
  candidate <- lift (set candidate (subarray pt 0 candidateLen) 0) ;;
  if strict_neq (get candidate 0) 0x78 then ret None
  else
    emit (PakoInflate candidate) ;;;
    inflated <- lift (inflate pk candidate) ;;
    ret (Some inflated).

(** The loop over [trimOptions]; an exception in the body is caught and the
    next trim is tried.  The result is the pair [(inflated, trimUsed)] after
    the loop: both [None] while they are still [null], and [inflated] also
    [None] when the loop was left with [undefined] assigned to it. *)
Fixpoint trim_loop (pk : PakoLib) (pt : bytes) (trimOptions : list Z)
  : M (option bytes * option Z) :=
  match trimOptions with
  | [] => ret (None, None)
  | trim :: rest =>
      r <- try_catch (trim_body pk pt trim) (fun _ => ret None) ;;
      match r with
      | Some inflated => ret (inflated, Some trim)
      | None => trim_loop pk pt rest
      end
  end.

(** The plaintext [pt] that [decryptSave] hands to the trim loop: decrypted,
    cut to the length of the file, unpadded. *)
Definition decrypt_unpadded (cj : CryptoJSLib) (ciph : bytes)
  (userID : jsstring) : M bytes :=
  keyBytes <- lift (deriveKey userID) ;;
  let keyWordArray := uint8ArrayToWordArray keyBytes in
  let ciphWordArray := uint8ArrayToWordArray ciph in
  let decrypted := AES_decrypt cj ciphWordArray keyWordArray in
  pt <- lift (wordsToBytes (words decrypted)) ;;
  trimmed <- lift (Uint8Array_new (len ciph)) ;;
  pt <- lift (set trimmed (subarray pt 0 (len ciph)) 0) ;;
  pkcs7Unpad pt.

Definition decryptSave (window : Window) (fileArrayBuffer : bytes)
  (userID : jsstring) : M jsstring :=
  match userID with
  | [] => throw (Error "Please enter platform user ID (Steam or Epic)")
  | _ :: _ =>
      match CryptoJS window, pako window with
      | Some cj, Some pk =>
          let ciph := fileArrayBuffer in
          pt <- decrypt_unpadded cj ciph userID ;;
          r <- trim_loop pk pt [4; 8] ;;
          let (inflated, trimUsed) := r in
          match inflated with
          | None =>
              throw
                (Error "Zlib decompress failed. Wrong user ID or file format?")
          | Some inflated =>
              emit (ConsoleLog ("Successfully decompressed with trim="
                                  ++ String_of_trimUsed trimUsed)) ;;;
              ret (TextDecoder_decode inflated)
          end
      | _, _ => throw (Error "Required libraries not loaded")
      end
  end.

(** ** [encryptSave] *)

(** The loop of [adler32] over the bytes that remain. *)
Fixpoint adler32_loop (buf : bytes) (a b : Z) : Z * Z :=
  match buf with
  | [] => (a, b)
  | x :: rest =>
      let a' := rem (a + x) 65521 in
      let b' := rem (b + a') 65521 in
      adler32_loop rest a' b'
  end.

Definition adler32 (buf : bytes) : Z :=
  let (a, b) := adler32_loop buf 1 0 in
  shr (bor (shl b 16) a) 0.

(** The buffer [pt_padded] that [encryptSave] passes to the cipher. *)
Definition pt_padded_of (pk : PakoLib) (yamlContent : jsstring)
  : completion bytes :=
  let yamlBytes := TextEncoder_encode yamlContent in
  let comp := deflate pk yamlBytes in
  let adler := adler32 yamlBytes in
  let uncompressedLen := len yamlBytes in
  packed <~ Uint8Array_new (len comp + 8) ;;
  packed <~ set packed comp 0 ;;
  let packed := store packed (len comp + 0) (band adler 0xff) in
  let packed := store packed (len comp + 1) (band (sar adler 8) 0xff) in
  let packed := store packed (len comp + 2) (band (sar adler 16) 0xff) in
  let packed := store packed (len comp + 3) (band (sar adler 24) 0xff) in
  let packed := store packed (len comp + 4) (band uncompressedLen 0xff) in
  let packed :=
    store packed (len comp + 5) (band (sar uncompressedLen 8) 0xff) in
  let packed :=
    store packed (len comp + 6) (band (sar uncompressedLen 16) 0xff) in
  let packed :=
    store packed (len comp + 7) (band (sar uncompressedLen 24) 0xff) in
  pkcs7Pad packed 16.

(** The result is the content of the returned [Blob]. *)
Definition encryptSave (window : Window) (yamlContent : jsstring)
  (userID : jsstring) : completion bytes :=
  match userID with
  | [] => Throw (Error "Please enter platform user ID (Steam or Epic)")
  | _ :: _ =>
      match CryptoJS window, pako window with
      | Some cj, Some pk =>
          pt_padded <~ pt_padded_of pk yamlContent ;;
          keyBytes <~ deriveKey userID ;;
          let keyWordArray := uint8ArrayToWordArray keyBytes in
          let ptWordArray := uint8ArrayToWordArray pt_padded in
          let encrypted := AES_encrypt cj ptWordArray keyWordArray in
          wordsToBytes (words encrypted)
      | _, _ => Throw (Error "Required libraries not loaded")
      end
  end.

End SaveDecryptor.

Import Regex SaveDecryptor.

(* ===================================================================== *)
(** * The notions of the specification *)
(* ===================================================================== *)

Module Spec.

(** Every element is a byte. *)
Definition bytes_ok (buf : bytes) : Prop := Forall (fun x => 0 <= x < 256) buf.

(** ** Identities *)

(** "17 or more ASCII digits, nothing else" *)
Definition is_steam_identity (s : jsstring) : Prop :=
  (17 <= List.length s)%nat /\ Forall (fun c => 48 <= c <= 57) s.

(** The unsigned integer a string of decimal digits denotes. *)
Definition decimal_value (s : jsstring) : Z :=
  fold_left (fun acc c => 10 * acc + (c - 48)) s 0.

(** The [n]-byte little-endian representation of the unsigned [v]. *)
Definition le_bytes (n : nat) (v : Z) : list Z :=
  map (fun i => (v / 256 ^ Z.of_nat i) mod 256) (seq 0 n).

Definition le32 (v : Z) : list Z := le_bytes 4 v.

(** UTF-16 code units, little-endian, two bytes per code unit. *)
Definition utf16le (s : jsstring) : list Z :=
  flat_map (fun c => [c mod 256; (c / 256) mod 256]) s.

(** [l] cut to [n] bytes, and filled with zero bytes up to [n]. *)
Fixpoint zero_extend (n : nat) (l : list Z) : list Z :=
  match n with
  | O => []
  | S n' =>
      match l with
      | [] => 0 :: zero_extend n' []
      | x :: l' => x :: zero_extend n' l'
      end
  end.

(** Key construction: byte [i] of the base is XORed with byte [i] of the
    identity for [i] below both lengths; the bytes of the base beyond the
    identity bytes are left as they are. *)
Fixpoint xor_prefix (base identityBytes : list Z) : list Z :=
  match base, identityBytes with
  | [], _ => []
  | _, [] => base
  | b :: base', x :: rest => Z.lxor b x :: xor_prefix base' rest
  end.

(** ** Padding *)

(** The final [n] elements of [buf]. *)
Definition final_bytes (n : nat) (buf : bytes) : bytes :=
  skipn (List.length buf - n) buf.

(** "the final [p] bytes of [buf] are all equal to [p]" *)
Definition padding_valid (buf : bytes) (p : Z) : Prop :=
  (Z.to_nat p <= List.length buf)%nat
  /\ Forall (fun x => x = p) (final_bytes (Z.to_nat p) buf).

(** ** Adler-32, as the specification words it *)

Definition adler32_step (st : Z * Z) (x : Z) : Z * Z :=
  let a := (fst st + x) mod 65521 in
  (a, (snd st + a) mod 65521).

Definition adler32_ref (buf : bytes) : Z :=
  let (a, b) := fold_left adler32_step buf (1, 0) in
  Z.lor (Z.shiftl b 16) a.

(** ** The trim heuristic, as the specification words it *)

(** [unpadded[0 .. len(unpadded) - trim)] *)
Definition candidate (unpadded : bytes) (trim : nat) : bytes :=
  firstn (List.length unpadded - trim) unpadded.

(** What becomes of a candidate: it is not inflated, or inflate fails on
    it, or inflate returns without data, or it returns the inflated bytes. *)
Inductive attempt : Type :=
| Skipped
| Failed (e : exn)
| NoData
| Accepted (inflated : bytes).

(** A candidate that is empty or does not start with [0x78] is skipped;
    otherwise it is inflated. *)
Definition attempt_of (pk : PakoLib) (c : bytes) : attempt :=
  match c with
  | [] => Skipped
  | first :: _ =>
      if first =? 0x78 then
        match inflate pk c with
        | Normal (Some out) => Accepted out
        | Normal None => NoData
        | Throw e => Failed e
        end
      else Skipped
  end.

(** The candidates in order, as the specification words the heuristic: the
    calls to inflate that are made, and the first candidate that starts with
    [0x78] and inflates successfully, with its trim.  A candidate on which
    inflate does not succeed is passed over. *)
Fixpoint trim_spec (pk : PakoLib) (unpadded : bytes) (trims : list nat)
  : list event * option (bytes * Z) :=
  match trims with
  | [] => ([], None)
  | t :: rest =>
      let c := candidate unpadded t in
      match attempt_of pk c with
      | Accepted out => ([PakoInflate c], Some (out, Z.of_nat t))
      | Skipped => trim_spec pk unpadded rest
      | Failed _ | NoData =>
          let (evs, r) := trim_spec pk unpadded rest in
          (PakoInflate c :: evs, r)
      end
  end.

(** The candidates in order, as the loop of [decryptSave] walks them: the
    calls to inflate that are made, and [inflated] and [trimUsed] after the
    loop.  The walk ends at the first candidate on which inflate returns,
    with or without data. *)
Fixpoint trim_walk (pk : PakoLib) (unpadded : bytes) (trims : list nat)
  : list event * (option bytes * option Z) :=
  match trims with
  | [] => ([], (None, None))
  | t :: rest =>
      let c := candidate unpadded t in
      match attempt_of pk c with
      | Accepted out => ([PakoInflate c], (Some out, Some (Z.of_nat t)))
      | NoData => ([PakoInflate c], (None, Some (Z.of_nat t)))
      | Skipped => trim_walk pk unpadded rest
      | Failed _ =>
          let (evs, r) := trim_walk pk unpadded rest in
          (PakoInflate c :: evs, r)
      end
  end.

(** The accepted candidate of a walk, if [inflated] holds data. *)
Definition accepted_of (r : option bytes * option Z) : option (bytes * Z) :=
  match r with
  | (Some out, Some t) => Some (out, t)
  | _ => None
  end.

(** [DecompressFailure], as [decryptSave] raises it. *)
Definition DecompressFailure : exn :=
  Error "Zlib decompress failed. Wrong user ID or file format?".

(** The candidate starts with [0x78] and inflates to [out]. *)
Definition accepted (pk : PakoLib) (c out : bytes) : Prop :=
  (exists rest, c = 0x78 :: rest) /\ inflate pk c = Normal (Some out).

(** ** The external primitives *)

(** The bytes a CryptoJS word array denotes: the first [sigBytes] bytes of
    its words, each word most significant byte first. *)
Definition word_be_bytes (w : Z) : list Z :=
  let u := w mod 2 ^ 32 in
  [u / 2 ^ 24; (u / 2 ^ 16) mod 256; (u / 2 ^ 8) mod 256; u mod 256].

Definition wordArray_bytes (w : WordArray) : bytes :=
  firstn (Z.to_nat (sigBytes w)) (flat_map word_be_bytes (words w)).

(** The word array CryptoJS builds for a byte string: signed 32-bit words. *)
Fixpoint be_words (b : bytes) : list Z :=
  match b with
  | [] => []
  | b0 :: b1 :: b2 :: b3 :: rest =>
      ToInt32 (b0 * 2 ^ 24 + b1 * 2 ^ 16 + b2 * 2 ^ 8 + b3) :: be_words rest
  | [b0; b1; b2] => [ToInt32 (b0 * 2 ^ 24 + b1 * 2 ^ 16 + b2 * 2 ^ 8)]
  | [b0; b1] => [ToInt32 (b0 * 2 ^ 24 + b1 * 2 ^ 16)]
  | [b0] => [ToInt32 (b0 * 2 ^ 24)]
  end.

Definition wordArray_of_bytes (b : bytes) : WordArray :=
  {| words := be_words b; sigBytes := len b |}.

(** CryptoJS's AES (ECB, no padding) over a block cipher on byte strings,
    [encryptECB key plaintext] and [decryptECB key ciphertext]. *)
Definition cryptojs_of_cipher (encryptECB decryptECB : bytes -> bytes -> bytes)
  : CryptoJSLib :=
  {| AES_encrypt := fun message key =>
       wordArray_of_bytes
         (encryptECB (wordArray_bytes key) (wordArray_bytes message));
     AES_decrypt := fun ciphertext key =>
       wordArray_of_bytes
         (decryptECB (wordArray_bytes key) (wordArray_bytes ciphertext)) |}.

(** The contract of the block cipher: on a 32-byte key and whole blocks,
    the ciphertext has the length of the plaintext, and [decryptECB] inverts
    [encryptECB] under the same key. *)
Definition cipher_contract (encryptECB decryptECB : bytes -> bytes -> bytes)
  : Prop :=
  forall key p,
    bytes_ok key -> List.length key = 32%nat ->
    bytes_ok p -> len p mod 16 = 0 ->
    bytes_ok (encryptECB key p)
    /\ len (encryptECB key p) = len p
    /\ decryptECB key (encryptECB key p) = p.

(** The contract of the compression primitive: [inflate] inverts
    [deflate]. *)
Definition zlib_contract (pk : PakoLib) : Prop :=
  forall x,
    bytes_ok x ->
    bytes_ok (deflate pk x) /\ inflate pk (deflate pk x) = Normal (Some x).

(** A deflated stream begins with the zlib header byte [0x78]. *)
Definition zlib_header (pk : PakoLib) : Prop :=
  forall x, bytes_ok x -> exists rest, deflate pk x = 0x78 :: rest.

(** The deflated stream of [x] followed by the bytes [extra] is not a valid
    stream: [inflate] fails on it, unless it ignores what follows the end of
    the stream and returns [x]. *)
Definition trailer_harmless (pk : PakoLib) (x extra : bytes) : Prop :=
  inflate pk (deflate pk x ++ extra) = Normal (Some x)
  \/ exists e, inflate pk (deflate pk x ++ extra) = Throw e.

(** The round trip of the specification for one text and identity, with the
    trailer of the container that [encryptSave] pads and encrypts. *)
Definition round_trip (cj : CryptoJSLib) (pk : PakoLib)
  (text userID : jsstring) : Prop :=
  let window := {| CryptoJS := Some cj; pako := Some pk |} in
  (exists saved,
      encryptSave window text userID = Normal saved
      /\ snd (decryptSave window saved userID) = Normal text)
  /\ (exists padded container,
         pt_padded_of pk text = Normal padded
         /\ snd (pkcs7Unpad padded) = Normal container
         /\ final_bytes 8 container =
            le32 (adler32_ref (TextEncoder_encode text))
              ++ le32 (len (TextEncoder_encode text))).

(** ** Further notions used in the properties of the codec *)

(** Every element is a UTF-16 code unit. *)
Definition wf_string (s : jsstring) : Prop :=
  Forall (fun c => 0 <= c < 65536) s.

(** Every code unit is an ASCII character. *)
Definition is_ascii (s : jsstring) : Prop := Forall (fun c => 0 <= c < 128) s.

(** The code units that pairs of bytes, low byte first, denote. *)
Fixpoint utf16le_units (b : list Z) : jsstring :=
  match b with
  | lo :: hi :: rest => lo + 256 * hi :: utf16le_units rest
  | _ => []
  end.

(** The unsigned integer that little-endian bytes denote. *)
Fixpoint le_value (b : list Z) : Z :=
  match b with
  | [] => 0
  | x :: rest => x + 256 * le_value rest
  end.

(** [a] is an initial part of [b]. *)
Definition prefix_of (a b : bytes) : Prop := exists rest, b = a ++ rest.

(** [b] followed by the zero bytes that complete its last group of four. *)
Definition zero_pad4 (b : bytes) : bytes :=
  b ++ repeat 0 ((4 - List.length b mod 4) mod 4).

(** The sum of the bytes, and the sum in which the byte at index [i] of [n]
    counts [n - i] times. *)
Definition byte_sum (buf : bytes) : Z := fold_right Z.add 0 buf.

Fixpoint weighted_sum (buf : bytes) : Z :=
  match buf with
  | [] => 0
  | x :: rest => len buf * x + weighted_sum rest
  end.

(** The inputs of the calls to [pako.inflate] among the events. *)
Fixpoint inflate_inputs (evs : list event) : list bytes :=
  match evs with
  | [] => []
  | PakoInflate input :: rest => input :: inflate_inputs rest
  | _ :: rest => inflate_inputs rest
  end.

(** The two other errors of [decryptSave] and [encryptSave]. *)
Definition MissingIdentity : exn :=
  Error "Please enter platform user ID (Steam or Epic)".
Definition PrimitivesUnavailable : exn :=
  Error "Required libraries not loaded".

End Spec.

(* ===================================================================== *)
(** * Stand-ins for the external primitives *)
(* ===================================================================== *)

Module Doubles.

(** A cipher that leaves the bytes as they are. *)
Definition plain_cipher (key data : bytes) : bytes := data.

(** A compressor that stores its input behind the header byte [0x78], and
    inflates whatever follows that byte. *)
Definition stored_pako : PakoLib :=
  {| deflate := fun x => 0x78 :: x;
     inflate := fun y =>
       match y with
       | 0x78 :: x => Normal (Some x)
       | _ => Throw (LibraryError "incorrect header check")
       end |}.

(** A format of chunks behind the header byte [0x78]: a length [n > 0] is
    followed by [n] bytes, and the length 0 ends the stream. *)
Inductive parsed : Type :=
| Ended (out rest : bytes)
| NeedInput
| Invalid (e : exn).

(** The first [n] bytes and what follows them. *)
Fixpoint take (n : nat) (input : bytes) : option (bytes * bytes) :=
  match n with
  | O => Some ([], input)
  | S n' =>
      match input with
      | [] => None
      | b :: rest =>
          match take n' rest with
          | Some (got, rest') => Some (b :: got, rest')
          | None => None
          end
      end
  end.

Fixpoint chunks_parse (fuel : nat) (input : bytes) : parsed :=
  match fuel with
  | O => NeedInput
  | S fuel' =>
      match input with
      | [] => NeedInput
      | n :: rest =>
          if n =? 0 then Ended [] rest
          else if n <? 0 then Invalid (LibraryError "invalid stored block")
          else
            match take (Z.to_nat n) rest with
            | None => NeedInput
            | Some (got, rest') =>
                match chunks_parse fuel' rest' with
                | Ended out rest'' => Ended (got ++ out) rest''
                | other => other
                end
            end
      end
  end.

Definition chunked_stream (input : bytes) : parsed :=
  match input with
  | [] => NeedInput
  | h :: body =>
      if h =? 0x78 then chunks_parse (List.length input) body
      else Invalid (LibraryError "incorrect header check")
  end.

(** One chunk per byte. *)
Definition chunked_deflate (x : bytes) : bytes :=
  0x78 :: flat_map (fun b => [1; b]) x ++ [0].

(** As pako does, [chunked_inflate] starts over on what follows the end of a
    stream, unless that is empty or begins with a zero byte, and it returns
    no data when the input ends before the stream does. *)
Definition chunked_inflate (input : bytes) : completion (option bytes) :=
  match chunked_stream input with
  | Invalid e => Throw e
  | NeedInput => Normal None
  | Ended out rest =>
      match rest with
      | [] => Normal (Some out)
      | r0 :: _ =>
          if r0 =? 0 then Normal (Some out)
          else
            match chunked_stream rest with
            | Invalid e => Throw e
            | NeedInput => Normal None
            | Ended out' _ => Normal (Some (out ++ out'))
            end
      end
  end.

Definition chunked_pako : PakoLib :=
  {| deflate := chunked_deflate; inflate := chunked_inflate |}.

(** A decompressor that rejects every input. *)
Definition failing_pako : PakoLib :=
  {| deflate := fun x => x;
     inflate := fun _ => Throw (LibraryError "invalid stored block") |}.

Definition window_of (cj : CryptoJSLib) (pk : PakoLib) : Window :=
  {| CryptoJS := Some cj; pako := Some pk |}.

Definition plain_window (pk : PakoLib) : Window :=
  window_of (Spec.cryptojs_of_cipher plain_cipher plain_cipher) pk.

(** The identity and the text of the round-trip property. *)
Definition steam_id : jsstring := str "76561198012345678".
Definition hello_text : jsstring := str "hello: world" ++ [10].

(** A text whose Adler-32 checksum, written little-endian, begins with the
    header byte [0x78]. *)
Definition checksum_text : jsstring := str "j: z9".

End Doubles.

Import Spec Doubles.

(* ===================================================================== *)
(** * Arithmetic of the 32-bit operators *)
(* ===================================================================== *)

Lemma ToInt32_small (x : Z) : - 2 ^ 31 <= x < 2 ^ 31 -> ToInt32 x = x.
Proof.
  intros H. unfold ToInt32.
  rewrite Z.mod_small by lia. lia.
Qed.

Lemma ToInt32_range (x : Z) : - 2 ^ 31 <= ToInt32 x < 2 ^ 31.
Proof.
  unfold ToInt32.
  pose proof (Z.mod_pos_bound (x + 2 ^ 31) (2 ^ 32) ltac:(lia)). lia.
Qed.

Lemma ToInt32_mod (x : Z) : ToInt32 x mod 2 ^ 32 = x mod 2 ^ 32.
Proof.
  unfold ToInt32.
  replace ((x + 2 ^ 31) mod 2 ^ 32 - 2 ^ 31)
    with ((x + 2 ^ 31) mod 2 ^ 32 + (- 2 ^ 31)) by lia.
  rewrite Zplus_mod_idemp_l. f_equal. lia.
Qed.

Lemma mod_mod_256 (x : Z) : (x mod 2 ^ 32) mod 256 = x mod 256.
Proof.
  apply Z.mod_mod_divide. exists 16777216. reflexivity.
Qed.

Lemma ToInt32_mod256 (x : Z) : ToInt32 x mod 256 = x mod 256.
Proof.
  rewrite <- (mod_mod_256 (ToInt32 x)), ToInt32_mod. apply mod_mod_256.
Qed.

Lemma band_255 (x : Z) : band x 255 = x mod 256.
Proof.
  unfold band. rewrite (ToInt32_small 255) by lia.
  change 255 with (Z.ones 8). rewrite Z.land_ones by lia.
  apply ToInt32_mod256.
Qed.

Lemma band_255_byte (x : Z) : 0 <= band x 255 < 256.
Proof. rewrite band_255. apply Z.mod_pos_bound. lia. Qed.

Lemma lor_disjoint (hi lo n : Z) :
  0 <= n -> 0 <= lo < 2 ^ n -> hi mod 2 ^ n = 0 -> Z.lor hi lo = hi + lo.
Proof.
  intros Hn Hlo Hhi.
  enough (Hland : Z.land hi lo = 0)
    by (pose proof (Z.add_lor_land hi lo); lia).
  apply Z.bits_inj'. intros i Hi.
  rewrite Z.land_spec, Z.bits_0.
  destruct (Z.lt_ge_cases i n) as [Hlt | Hge].
  - replace hi with ((hi / 2 ^ n) * 2 ^ n).
    + rewrite Z.mul_pow2_bits_low by lia. reflexivity.
    + pose proof (Z.div_mod hi (2 ^ n) ltac:(lia)). lia.
  - rewrite <- (Z.mod_small lo (2 ^ n)) by lia.
    rewrite Z.mod_pow2_bits_high by lia. apply andb_false_r.
Qed.

(* ===================================================================== *)
(** * Adler-32 *)
(* ===================================================================== *)

Lemma adler32_step_bounds (st : Z * Z) (x : Z) :
  0 <= fst (adler32_step st x) < 65521 /\ 0 <= snd (adler32_step st x) < 65521.
Proof.
  unfold adler32_step; simpl. split; apply Z.mod_pos_bound; lia.
Qed.

Lemma adler32_ref_fold_bounds (buf : bytes) (st : Z * Z) :
  0 <= fst st < 65521 -> 0 <= snd st < 65521 ->
  0 <= fst (fold_left adler32_step buf st) < 65521
  /\ 0 <= snd (fold_left adler32_step buf st) < 65521.
Proof.
  revert st. induction buf as [| x rest IH]; intros st Ha Hb; simpl.
  - auto.
  - destruct (adler32_step_bounds st x). apply IH; assumption.
Qed.

(** On bytes, the loop of the source computes the fold of the reference
    definition. *)
Lemma adler32_loop_fold (buf : bytes) (a b : Z) :
  bytes_ok buf -> 0 <= a < 65521 -> 0 <= b < 65521 ->
  adler32_loop buf a b = fold_left adler32_step buf (a, b).
Proof.
  intros Hok. revert a b.
  induction Hok as [| x rest Hx Hrest IH]; intros a b Ha Hb; simpl.
  - reflexivity.
  - unfold JS.rem.
    rewrite (Z.rem_mod_nonneg (a + x) 65521) by lia.
    assert (Ha' : 0 <= (a + x) mod 65521 < 65521)
      by (apply Z.mod_pos_bound; lia).
    rewrite (Z.rem_mod_nonneg (b + (a + x) mod 65521) 65521) by lia.
    rewrite IH.
    + reflexivity.
    + assumption.
    + apply Z.mod_pos_bound; lia.
Qed.

(** The 32-bit result expression [((b << 16) | a) >>> 0] on two sums below
    65521. *)
Lemma adler32_combine (a b : Z) :
  0 <= a < 65521 -> 0 <= b < 65521 ->
  shr (bor (shl b 16) a) 0 = Z.lor (Z.shiftl b 16) a
  /\ 0 <= Z.lor (Z.shiftl b 16) a < 2 ^ 32.
Proof.
  intros Ha Hb.
  assert (Href : Z.lor (Z.shiftl b 16) a = b * 65536 + a).
  { rewrite Z.shiftl_mul_pow2 by lia.
    apply (lor_disjoint _ _ 16); try lia.
    change (2 ^ 16) with 65536. apply Z.mod_mul. lia. }
  rewrite Href. split; [| lia].
  unfold shr, bor, shl.
  rewrite (ToInt32_small b) by lia.
  change (Z.land 16 31) with 16. change (Z.land 0 31) with 0.
  rewrite Z.shiftl_mul_pow2 by lia.
  rewrite (ToInt32_small a) by lia.
  rewrite (ToInt32_small (ToInt32 _)) by apply ToInt32_range.
  rewrite (lor_disjoint _ a 16); try lia.
  - rewrite Z.shiftr_0_r. unfold ToUint32.
    rewrite <- Zplus_mod_idemp_l, ToInt32_mod, Zplus_mod_idemp_l.
    apply Z.mod_small. lia.
  - change (2 ^ 16) with 65536.
    rewrite <- (Z.mod_mod_divide _ (2 ^ 32) 65536).
    + rewrite ToInt32_mod.
      rewrite (Z.mod_mod_divide _ (2 ^ 32) 65536).
      * apply Z.mod_mul. lia.
      * exists 65536. reflexivity.
    + exists 65536. reflexivity.
Qed.

Lemma adler32_eq_ref (buf : bytes) :
  bytes_ok buf ->
  adler32 buf = adler32_ref buf /\ 0 <= adler32_ref buf < 2 ^ 32.
Proof.
  intros Hbuf. unfold adler32, adler32_ref.
  rewrite adler32_loop_fold by (assumption || lia).
  destruct (adler32_ref_fold_bounds buf (1, 0)) as [Ha Hb];
    [simpl; lia | simpl; lia |].
  destruct (fold_left adler32_step buf (1, 0)) as [a b]. simpl in Ha, Hb.
  apply adler32_combine; assumption.
Qed.

(** C8. On every byte buffer, [adler32] is the reference Adler-32: [a] starts
    at 1 and [b] at 0, each byte [x] in order sets [a = (a + x) mod 65521] and
    [b = (b + a) mod 65521], and the result is [(b << 16) | a], an unsigned
    32-bit value.  The checksum of the empty buffer is 1 and the checksum of
    the UTF-8 bytes of "Wikipedia" is 0x11E60398. *)
Theorem adler32_is_reference (buf : bytes) (Hbuf : bytes_ok buf) :
  adler32 buf = adler32_ref buf
  /\ 0 <= adler32 buf < 2 ^ 32
  /\ adler32 [] = 1
  /\ adler32 (TextEncoder_encode (str "Wikipedia")) = 0x11E60398.
Proof.
  destruct (adler32_eq_ref buf Hbuf) as [Heq Hrange].
  split; [exact Heq |]. split; [rewrite Heq; exact Hrange |].
  split; vm_compute; reflexivity.
Qed.

Lemma adler32_is_reference_witness :
  adler32 [0x57; 0x69; 0x6b; 0x69] = adler32_ref [0x57; 0x69; 0x6b; 0x69]
  /\ 0 <= adler32 [0x57; 0x69; 0x6b; 0x69] < 2 ^ 32
  /\ adler32 [] = 1
  /\ adler32 (TextEncoder_encode (str "Wikipedia")) = 0x11E60398.
Proof.
  apply (adler32_is_reference [0x57; 0x69; 0x6b; 0x69]).
  unfold bytes_ok. repeat constructor; lia.
Defined.

(* ===================================================================== *)
(** * The identity pattern *)
(* ===================================================================== *)

Lemma matches_Void (s : jsstring) : matches Void s = false.
Proof. induction s; simpl; auto. Qed.

Lemma matches_Alt (r1 r2 : regex) (s : jsstring) :
  matches (Alt r1 r2) s = matches r1 s || matches r2 s.
Proof.
  revert r1 r2. induction s as [| c s IH]; intros r1 r2; simpl.
  - reflexivity.
  - apply IH.
Qed.

Lemma matches_Seq_Void (r : regex) (s : jsstring) :
  matches (Seq Void r) s = false.
Proof. induction s as [| c s IH]; simpl; auto. Qed.

Lemma matches_Seq_Eps (r : regex) (s : jsstring) :
  matches (Seq Eps r) s = matches r s.
Proof.
  destruct s as [| c s]; simpl.
  - reflexivity.
  - rewrite matches_Alt, matches_Seq_Void. reflexivity.
Qed.

Lemma matches_Seq_Class (p : Z -> bool) (r : regex) (s : jsstring) :
  matches (Seq (Class p) r) s =
  match s with
  | [] => false
  | c :: s' => p c && matches r s'
  end.
Proof.
  destruct s as [| c s]; simpl.
  - reflexivity.
  - destruct (p c); simpl.
    + apply matches_Seq_Eps.
    + apply matches_Seq_Void.
Qed.

Lemma matches_Star_Class (p : Z -> bool) (s : jsstring) :
  matches (Star (Class p)) s = forallb p s.
Proof.
  induction s as [| c s IH]; simpl.
  - reflexivity.
  - destruct (p c); simpl.
    + rewrite matches_Seq_Eps. exact IH.
    + apply matches_Seq_Void.
Qed.

Lemma matches_at_least (n : nat) (p : Z -> bool) (s : jsstring) :
  matches (at_least n (Class p)) s =
  (n <=? List.length s)%nat && forallb p s.
Proof.
  revert s. induction n as [| n IH]; intros s.
  - simpl at_least. rewrite matches_Star_Class. reflexivity.
  - simpl at_least. rewrite matches_Seq_Class.
    destruct s as [| c s].
    + reflexivity.
    + rewrite IH. simpl.
      destruct (p c), (n <=? List.length s)%nat; reflexivity.
Qed.

Lemma forallb_digit (s : jsstring) :
  forallb digit s = true <-> Forall (fun c => 48 <= c <= 57) s.
Proof.
  rewrite forallb_forall, Forall_forall.
  split; intros H c Hc; specialize (H c Hc); unfold digit in *; lia.
Qed.

(** The pattern accepts the strings of 17 or more ASCII digits. *)
Lemma steam_pattern_spec (s : jsstring) :
  test_anchored steam_pattern s = true <-> is_steam_identity s.
Proof.
  unfold test_anchored, steam_pattern, is_steam_identity.
  rewrite matches_at_least, andb_true_iff, forallb_digit, Nat.leb_le.
  reflexivity.
Qed.

Lemma steam_pattern_false (s : jsstring) :
  ~ is_steam_identity s -> test_anchored steam_pattern s = false.
Proof.
  intros H. destruct (test_anchored steam_pattern s) eqn:E; [| reflexivity].
  apply steam_pattern_spec in E. contradiction.
Qed.

(* ===================================================================== *)
(** * Identity bytes *)
(* ===================================================================== *)

Lemma BigInt_from_digits (s : jsstring) (acc : Z) :
  Forall (fun c => 48 <= c <= 57) s ->
  BigInt_from acc s =
  Normal (fold_left (fun a c => 10 * a + (c - 48)) s acc).
Proof.
  intros H. revert acc.
  induction H as [| c s Hc Hs IH]; intros acc; simpl.
  - reflexivity.
  - unfold digit.
    replace ((48 <=? c) && (c <=? 57)) with true by lia.
    apply IH.
Qed.

Lemma steam_loop_spec (n : nat) (sid : Z) (acc : list Z) :
  steam_loop n sid acc = acc ++ le_bytes n sid.
Proof.
  unfold le_bytes. revert sid acc.
  induction n as [| n IH]; intros sid acc.
  - simpl. rewrite app_nil_r. reflexivity.
  - cbn [steam_loop]. rewrite IH, <- app_assoc. f_equal.
    cbn [seq map app]. rewrite <- seq_shift, map_map.
    change (0xff) with (Z.ones 8). rewrite Z.land_ones by lia.
    change (256 ^ Z.of_nat 0) with 1. rewrite Z.div_1_r.
    change (2 ^ 8) with 256. f_equal.
    apply map_ext. intros i.
    rewrite Z.shiftr_div_pow2 by lia.
    rewrite Z.div_div by lia.
    rewrite Nat2Z.inj_succ, Z.pow_succ_r by lia.
    reflexivity.
Qed.

(** Only the low 64 bits of the integer reach the eight bytes. *)
Lemma le_bytes_8_wrap (v : Z) : le_bytes 8 v = le_bytes 8 (v mod 2 ^ 64).
Proof.
  unfold le_bytes. cbn [seq map Z.of_nat Pos.of_succ_nat Pos.succ].
  repeat (f_equal; [Z.div_mod_to_equations; lia |]).
  f_equal. Z.div_mod_to_equations; lia.
Qed.

Lemma sar_8_byte (c : Z) : band (sar c 8) 255 = (c / 256) mod 256.
Proof.
  rewrite band_255. unfold sar, ToInt32.
  change (Z.land 8 31) with 8.
  rewrite Z.shiftr_div_pow2 by lia.
  Z.div_mod_to_equations; lia.
Qed.

Lemma utf16leBytes_spec (s : jsstring) : utf16leBytes s = utf16le s.
Proof.
  unfold utf16le. induction s as [| c s IH]; simpl.
  - reflexivity.
  - rewrite band_255, sar_8_byte, IH. reflexivity.
Qed.

Lemma le_bytes_ok (n : nat) (v : Z) : bytes_ok (le_bytes n v).
Proof.
  unfold bytes_ok, le_bytes. apply Forall_map, Forall_forall.
  intros i _. apply Z.mod_pos_bound. lia.
Qed.

Lemma utf16le_ok (s : jsstring) : bytes_ok (utf16le s).
Proof.
  unfold bytes_ok, utf16le. induction s as [| c s IH]; simpl.
  - constructor.
  - repeat constructor; try apply Z.mod_pos_bound; try lia. exact IH.
Qed.

Lemma uid_bytes_of_steam (s : jsstring) :
  is_steam_identity s ->
  uid_bytes_of s = Normal (le_bytes 8 (decimal_value s mod 2 ^ 64)).
Proof.
  intros H. unfold uid_bytes_of.
  rewrite (proj2 (steam_pattern_spec s) H).
  unfold BigInt. rewrite BigInt_from_digits by apply H. cbn [bindC].
  rewrite steam_loop_spec. cbn [app].
  rewrite le_bytes_8_wrap. reflexivity.
Qed.

Lemma uid_bytes_of_epic (s : jsstring) :
  ~ is_steam_identity s -> uid_bytes_of s = Normal (utf16le s).
Proof.
  intros H. unfold uid_bytes_of.
  rewrite (steam_pattern_false s H), utf16leBytes_spec. reflexivity.
Qed.

(** The identity bytes are always computed, and they are bytes. *)
Lemma uid_bytes_of_total (s : jsstring) :
  exists u, uid_bytes_of s = Normal u /\ bytes_ok u.
Proof.
  destruct (test_anchored steam_pattern s) eqn:E.
  - apply steam_pattern_spec in E.
    eexists. split; [apply uid_bytes_of_steam; exact E | apply le_bytes_ok].
  - assert (H : ~ is_steam_identity s).
    { intros H. apply steam_pattern_spec in H. congruence. }
    eexists. split; [apply uid_bytes_of_epic; exact H | apply utf16le_ok].
Qed.

(* ===================================================================== *)
(** * Lists as typed arrays *)
(* ===================================================================== *)

Lemma len_nonneg {A} (l : list A) : 0 <= len l.
Proof. unfold len. lia. Qed.

Lemma len_cons {A} (x : A) (l : list A) : len (x :: l) = len l + 1.
Proof. unfold len. simpl List.length. lia. Qed.

Lemma len_app {A} (l1 l2 : list A) : len (l1 ++ l2) = len l1 + len l2.
Proof. unfold len. rewrite length_app. lia. Qed.

Lemma len_repeat {A} (x : A) (n : nat) : len (repeat x n) = Z.of_nat n.
Proof. unfold len. rewrite repeat_length. reflexivity. Qed.

Lemma get_app_len (l1 l2 : list Z) (x : Z) :
  get (l1 ++ x :: l2) (len l1) = Some x.
Proof.
  unfold get, len.
  replace (Z.of_nat (List.length l1) <? 0) with false
    by (symmetry; apply Z.ltb_ge; lia).
  rewrite Nat2Z.id, nth_error_app2, Nat.sub_diag by lia. reflexivity.
Qed.

Lemma store_nat_app_len (l1 l2 : bytes) (x v : Z) :
  store_nat (l1 ++ x :: l2) (List.length l1) v = l1 ++ ToUint8 v :: l2.
Proof.
  induction l1 as [| y l1 IH]; simpl.
  - reflexivity.
  - rewrite IH. reflexivity.
Qed.

Lemma store_app_len (l1 l2 : bytes) (x v : Z) :
  store (l1 ++ x :: l2) (len l1) v = l1 ++ ToUint8 v :: l2.
Proof.
  unfold store, len.
  replace (Z.of_nat (List.length l1) <? 0) with false
    by (symmetry; apply Z.ltb_ge; lia).
  rewrite Nat2Z.id. apply store_nat_app_len.
Qed.

Lemma bytes_ok_app (l1 l2 : bytes) :
  bytes_ok (l1 ++ l2) <-> bytes_ok l1 /\ bytes_ok l2.
Proof. apply Forall_app. Qed.

Lemma bytes_ok_repeat (x : Z) (n : nat) :
  0 <= x < 256 -> bytes_ok (repeat x n).
Proof.
  intros H. apply Forall_forall. intros y Hy.
  apply repeat_spec in Hy. subst y. exact H.
Qed.

(* ===================================================================== *)
(** * Key construction *)
(* ===================================================================== *)

Lemma lxor_byte (a b : Z) :
  0 <= a < 256 -> 0 <= b < 256 -> 0 <= Z.lxor a b < 256.
Proof.
  intros Ha Hb.
  assert (Hnn : 0 <= Z.lxor a b) by (apply Z.lxor_nonneg; lia).
  split; [exact Hnn |].
  destruct (Z.eq_dec (Z.lxor a b) 0) as [E | E]; [lia |].
  change 256 with (2 ^ 8). apply Z.log2_lt_pow2; [lia |].
  pose proof (Z.log2_lxor a b ltac:(lia) ltac:(lia)) as Hl.
  assert (Z.log2 a < 8).
  { destruct (Z.eq_dec a 0) as [-> | Na]; [simpl; lia |].
    apply Z.log2_lt_pow2; lia. }
  assert (Z.log2 b < 8).
  { destruct (Z.eq_dec b 0) as [-> | Nb]; [simpl; lia |].
    apply Z.log2_lt_pow2; lia. }
  lia.
Qed.

Lemma bxor_byte (a b : Z) :
  0 <= a < 256 -> 0 <= b < 256 -> ToUint8 (bxor a b) = Z.lxor a b.
Proof.
  intros Ha Hb. unfold ToUint8, bxor.
  rewrite !ToInt32_small by lia.
  apply Z.mod_small. apply lxor_byte; assumption.
Qed.

Lemma lxor_cancel_l (b x y : Z) : Z.lxor b x = Z.lxor b y -> x = y.
Proof.
  intros H.
  rewrite <- (Z.lxor_0_l x), <- (Z.lxor_0_l y), <- (Z.lxor_nilpotent b).
  rewrite !Z.lxor_assoc. f_equal. exact H.
Qed.

(** The XOR loop of [deriveKey], started at the index where [todo] begins. *)
Lemma xor_loop_spec (todo utodo done udone : list Z) :
  bytes_ok todo -> bytes_ok utodo -> List.length done = List.length udone ->
  xor_loop (Z.to_nat (Z.min (len todo) (len utodo))) (len done)
    (done ++ todo) (udone ++ utodo)
  = done ++ xor_prefix todo utodo.
Proof.
  intros Htodo. revert utodo done udone.
  induction Htodo as [| t todo Ht Htodo IH];
    intros utodo done udone Hu Hlen.
  - replace (Z.to_nat (Z.min (len (@nil Z)) (len utodo))) with 0%nat
      by (pose proof (len_nonneg utodo); change (len (@nil Z)) with 0; lia).
    reflexivity.
  - destruct Hu as [| x utodo Hx Hutodo].
    + replace (Z.to_nat (Z.min (len (t :: todo)) (len (@nil Z)))) with 0%nat
        by (pose proof (len_nonneg (t :: todo));
            change (len (@nil Z)) with 0; lia).
      reflexivity.
    + replace (Z.to_nat (Z.min (len (t :: todo)) (len (x :: utodo))))
        with (S (Z.to_nat (Z.min (len todo) (len utodo)))).
      2:{ rewrite !len_cons.
          pose proof (len_nonneg todo). pose proof (len_nonneg utodo). lia. }
      cbn [xor_loop xor_prefix].
      assert (Hg : get (udone ++ x :: utodo) (len done) = Some x).
      { replace (len done) with (len udone) by (unfold len; lia).
        apply get_app_len. }
      rewrite get_app_len, Hg. cbn [num].
      rewrite store_app_len, bxor_byte by assumption.
      replace (done ++ Z.lxor t x :: todo)
        with ((done ++ [Z.lxor t x]) ++ todo)
        by (rewrite <- app_assoc; reflexivity).
      replace (udone ++ x :: utodo) with ((udone ++ [x]) ++ utodo)
        by (rewrite <- app_assoc; reflexivity).
      replace (len done + 1) with (len (done ++ [Z.lxor t x]))
        by (rewrite len_app; reflexivity).
      rewrite IH.
      * rewrite <- app_assoc. reflexivity.
      * assumption.
      * rewrite !length_app. simpl. lia.
Qed.

Lemma BASE_KEY_ok : bytes_ok BASE_KEY.
Proof. unfold bytes_ok, BASE_KEY. repeat constructor; lia. Qed.

(** [deriveKey] in closed form. *)
Lemma deriveKey_xor_prefix (s : jsstring) (u : list Z) :
  uid_bytes_of s = Normal u -> bytes_ok u ->
  deriveKey s = Normal (xor_prefix BASE_KEY u).
Proof.
  intros Hu Hok. unfold deriveKey. rewrite Hu. cbn [bindC]. f_equal.
  unfold Uint8Array_copy.
  apply (xor_loop_spec BASE_KEY u [] []).
  - apply BASE_KEY_ok.
  - assumption.
  - reflexivity.
Qed.

Lemma xor_prefix_length (base u : list Z) :
  List.length (xor_prefix base u) = List.length base.
Proof.
  revert u. induction base as [| b base IH]; intros [| x u]; simpl; auto.
Qed.

Lemma xor_prefix_ok (base u : list Z) :
  bytes_ok base -> bytes_ok u -> bytes_ok (xor_prefix base u).
Proof.
  intros Hb. revert u.
  induction Hb as [| b base Hb0 Hb IH]; intros u Hu.
  - destruct u; constructor.
  - destruct Hu as [| x u Hx Hu]; simpl.
    + constructor; assumption.
    + constructor; [apply lxor_byte; assumption | apply IH; assumption].
Qed.

Lemma xor_prefix_skipn (n : nat) (base u : list Z) :
  (List.length u <= n)%nat -> skipn n (xor_prefix base u) = skipn n base.
Proof.
  revert base u. induction n as [| n IH]; intros base u Hn.
  - destruct u; [| simpl in Hn; lia]. destruct base; reflexivity.
  - destruct base as [| b base]; [reflexivity |].
    destruct u as [| x u]; [reflexivity |].
    simpl. apply IH. simpl in Hn. lia.
Qed.

Lemma xor_prefix_nil (base : list Z) : xor_prefix base [] = base.
Proof. destruct base; reflexivity. Qed.

(** Two identity byte strings give the same key only if they agree up to the
    length of the base, a missing byte counting as zero. *)
Lemma xor_prefix_inj (base u1 u2 : list Z) :
  xor_prefix base u1 = xor_prefix base u2 ->
  zero_extend (List.length base) u1 = zero_extend (List.length base) u2.
Proof.
  revert u1 u2. induction base as [| b base IH]; intros u1 u2 H.
  - reflexivity.
  - destruct u1 as [| x1 u1], u2 as [| x2 u2]; cbn [xor_prefix] in H.
    + reflexivity.
    + injection H as Hb Hrest.
      assert (x2 = 0).
      { apply (lxor_cancel_l b). rewrite Z.lxor_0_r. congruence. }
      subst x2. simpl. f_equal.
      apply IH. rewrite xor_prefix_nil. exact Hrest.
    + injection H as Hb Hrest.
      assert (x1 = 0).
      { apply (lxor_cancel_l b). rewrite Z.lxor_0_r. congruence. }
      subst x1. simpl. f_equal.
      apply IH. rewrite xor_prefix_nil. exact Hrest.
    + injection H as Hb Hrest.
      apply lxor_cancel_l in Hb. subst x2. simpl. f_equal.
      apply IH. exact Hrest.
Qed.

Lemma deriveKey_total (s : jsstring) :
  exists u, uid_bytes_of s = Normal u /\ bytes_ok u
            /\ deriveKey s = Normal (xor_prefix BASE_KEY u).
Proof.
  destruct (uid_bytes_of_total s) as (u & Hu & Hok).
  exists u. repeat split; try assumption.
  apply deriveKey_xor_prefix; assumption.
Qed.

(* ===================================================================== *)
(** * Properties of [deriveKey] *)
(* ===================================================================== *)

(** C4. [deriveKey] takes the Steam path exactly when the identity consists
    of 17 or more ASCII digits and nothing else: the pattern test succeeds on
    those strings only; on them the identity bytes are the 8-byte
    little-endian representation of the decimal value, wrapped to 64 bits;
    on every other string they are the UTF-16LE code units, two bytes per
    code unit in the original order; in both cases the key is the base
    constant XORed with these bytes.  The 16-digit string
    "1234567890123456" takes the Epic path and the 17-digit string
    "12345678901234567" the Steam path. *)
Theorem deriveKey_classification (s : jsstring) :
  (test_anchored steam_pattern s = true <-> is_steam_identity s)
  /\ (is_steam_identity s ->
      let steam_bytes := le_bytes 8 (decimal_value s mod 2 ^ 64) in
      uid_bytes_of s = Normal steam_bytes
      /\ deriveKey s = Normal (xor_prefix BASE_KEY steam_bytes))
  /\ (~ is_steam_identity s ->
      uid_bytes_of s = Normal (utf16le s)
      /\ deriveKey s = Normal (xor_prefix BASE_KEY (utf16le s)))
  /\ (test_anchored steam_pattern (str "1234567890123456") = false
      /\ uid_bytes_of (str "1234567890123456")
         = Normal (utf16le (str "1234567890123456")))
  /\ (test_anchored steam_pattern (str "12345678901234567") = true
      /\ uid_bytes_of (str "12345678901234567")
         = Normal (le_bytes 8 12345678901234567)).
Proof.
  split; [apply steam_pattern_spec |].
  split.
  { intros Hs steam_bytes. pose proof (uid_bytes_of_steam s Hs) as Hu.
    split; [exact Hu |].
    apply deriveKey_xor_prefix; [exact Hu | apply le_bytes_ok]. }
  split.
  { intros Hs. pose proof (uid_bytes_of_epic s Hs) as Hu.
    split; [exact Hu |].
    apply deriveKey_xor_prefix; [exact Hu | apply utf16le_ok]. }
  split; split; vm_compute; reflexivity.
Qed.

Lemma deriveKey_classification_witness :
  (uid_bytes_of (str "76561198012345678")
   = Normal (le_bytes 8 (decimal_value (str "76561198012345678") mod 2 ^ 64))
   /\ deriveKey (str "76561198012345678")
      = Normal (xor_prefix BASE_KEY
                  (le_bytes 8
                     (decimal_value (str "76561198012345678") mod 2 ^ 64))))
  /\ (uid_bytes_of (str "epic-user") = Normal (utf16le (str "epic-user"))
      /\ deriveKey (str "epic-user")
         = Normal (xor_prefix BASE_KEY (utf16le (str "epic-user")))).
Proof.
  split.
  - apply (proj1 (proj2 (deriveKey_classification (str "76561198012345678")))).
    apply steam_pattern_spec. vm_compute. reflexivity.
  - apply (proj1 (proj2 (proj2 (deriveKey_classification (str "epic-user"))))).
    intros [H _]. simpl in H. lia.
Defined.

(** C10. [deriveKey] returns on every string, the empty one included, and
    the key has exactly 32 bytes.  For a Steam identity the identity
    contributes exactly 8 bytes, so the last 24 bytes of the key are those of
    the base constant. *)
Theorem deriveKey_total_32_bytes (s : jsstring) :
  (exists k, deriveKey s = Normal k /\ List.length k = 32%nat)
  /\ (is_steam_identity s ->
      exists u k,
        uid_bytes_of s = Normal u /\ List.length u = 8%nat
        /\ deriveKey s = Normal k
        /\ skipn 8 k = skipn 8 BASE_KEY).
Proof.
  split.
  - destruct (deriveKey_total s) as (u & _ & _ & Hk).
    eexists. split; [exact Hk |]. apply xor_prefix_length.
  - intros Hs.
    pose proof (uid_bytes_of_steam s Hs) as Hu.
    eexists. eexists. split; [exact Hu |].
    split; [unfold le_bytes; rewrite length_map, length_seq; reflexivity |].
    split; [apply deriveKey_xor_prefix; [exact Hu | apply le_bytes_ok] |].
    apply xor_prefix_skipn.
    unfold le_bytes. rewrite length_map, length_seq. lia.
Qed.

Lemma deriveKey_total_32_bytes_witness :
  exists u k,
    uid_bytes_of (str "76561198012345678") = Normal u
    /\ List.length u = 8%nat
    /\ deriveKey (str "76561198012345678") = Normal k
    /\ skipn 8 k = skipn 8 BASE_KEY.
Proof.
  apply (proj2 (deriveKey_total_32_bytes (str "76561198012345678"))).
  apply steam_pattern_spec. vm_compute. reflexivity.
Defined.

(** The claim C5 as stated, that [deriveKey] fails on the empty string, does
    not hold: the call returns. *)
Lemma deriveKey_empty_does_not_throw :
  ~ (exists e, deriveKey [] = Throw e).
Proof. intros [e H]. vm_compute in H. discriminate H. Qed.

(** C5, amended. On the empty string [deriveKey] returns the base constant
    unchanged; the empty identity is rejected by its callers: [decryptSave]
    and [encryptSave] throw "Please enter platform user ID (Steam or Epic)"
    before they derive a key. *)
Theorem deriveKey_empty_identity :
  deriveKey [] = Normal BASE_KEY
  /\ (forall window file,
        decryptSave window file []
        = ([], Throw (Error "Please enter platform user ID (Steam or Epic)")))
  /\ (forall window text,
        encryptSave window text []
        = Throw (Error "Please enter platform user ID (Steam or Epic)")).
Proof.
  split; [vm_compute; reflexivity |].
  split; intros; reflexivity.
Qed.

(** The claim C3 as stated does not hold: the Epic identity "a" and the Steam
    identity "00000000000000097" have the same key, while their identity
    bytes, two and eight of them, differ after truncation to 32 bytes. *)
Lemma deriveKey_collision_counterexample :
  ~ (forall id1 id2 r1 r2,
        deriveKey id1 = deriveKey id2 ->
        uid_bytes_of id1 = Normal r1 -> uid_bytes_of id2 = Normal r2 ->
        firstn 32 r1 = firstn 32 r2).
Proof.
  intros H.
  specialize (H (str "a") (str "00000000000000097")
                [97; 0] [97; 0; 0; 0; 0; 0; 0; 0]).
  assert (Hne : firstn 32 [97; 0] = firstn 32 [97; 0; 0; 0; 0; 0; 0; 0])
    by (apply H; vm_compute; reflexivity).
  discriminate Hne.
Qed.

(** C3, amended. If two identities have the same derived key, their identity
    bytes (8-byte little-endian integer for a Steam identity, UTF-16LE code
    units for an Epic one) coincide after truncation to 32 bytes and filling
    with zero bytes up to 32: they agree at every index below 32, a missing
    byte counting as zero. *)
Theorem deriveKey_collision (id1 id2 : jsstring)
  (Hkey : deriveKey id1 = deriveKey id2) :
  exists r1 r2,
    uid_bytes_of id1 = Normal r1 /\ uid_bytes_of id2 = Normal r2
    /\ zero_extend 32 r1 = zero_extend 32 r2.
Proof.
  destruct (deriveKey_total id1) as (r1 & Hr1 & _ & Hk1).
  destruct (deriveKey_total id2) as (r2 & Hr2 & _ & Hk2).
  exists r1, r2. split; [exact Hr1 |]. split; [exact Hr2 |].
  rewrite Hk1, Hk2 in Hkey. injection Hkey as Hkey.
  apply (xor_prefix_inj BASE_KEY). exact Hkey.
Qed.

Lemma deriveKey_collision_witness :
  exists r1 r2,
    uid_bytes_of (str "a") = Normal r1
    /\ uid_bytes_of (str "00000000000000097") = Normal r2
    /\ zero_extend 32 r1 = zero_extend 32 r2.
Proof.
  apply (deriveKey_collision (str "a") (str "00000000000000097")).
  vm_compute. reflexivity.
Defined.

(* ===================================================================== *)
(** * Allocation and copying *)
(* ===================================================================== *)

Lemma to_nat_len {A} (l : list A) : Z.to_nat (len l) = List.length l.
Proof. unfold len. apply Nat2Z.id. Qed.

Lemma ltb_nonneg_false (x : Z) : 0 <= x -> (x <? 0) = false.
Proof. intros H. apply Z.ltb_ge. exact H. Qed.

Lemma Uint8Array_new_nonneg (n : Z) :
  0 <= n -> Uint8Array_new n = Normal (repeat 0 (Z.to_nat n)).
Proof. intros H. unfold Uint8Array_new. rewrite ltb_nonneg_false; auto. Qed.

Lemma Uint8Array_new_negative (n : Z) :
  n < 0 -> Uint8Array_new n = Throw RangeError.
Proof.
  intros H. unfold Uint8Array_new.
  rewrite (proj2 (Z.ltb_lt n 0) H). reflexivity.
Qed.

Lemma subarray_prefix (buf : bytes) (e : Z) :
  0 <= e -> subarray buf 0 e = firstn (Z.to_nat e) buf.
Proof.
  intros H. unfold subarray, clamp.
  rewrite (ltb_nonneg_false e H). change (0 <? 0) with false.
  pose proof (len_nonneg buf).
  rewrite (Z.min_l 0) by lia. rewrite Z.sub_0_r. cbn [Z.to_nat skipn].
  destruct (Z.le_gt_cases e (len buf)) as [Hle | Hgt].
  - rewrite Z.min_l by lia. reflexivity.
  - rewrite Z.min_r by lia. rewrite to_nat_len.
    rewrite firstn_all, firstn_all2; [reflexivity |].
    unfold len in Hgt. lia.
Qed.

Lemma skipn_repeat_sub {A} (x : A) (k n : nat) :
  skipn k (repeat x n) = repeat x (n - k).
Proof.
  revert n. induction k as [| k IH]; intros [| n]; simpl; auto.
Qed.

(** [src] copied at 0 into a fresh array of [n] bytes. *)
Lemma set_fresh (src : bytes) (n : nat) :
  (List.length src <= n)%nat ->
  set (repeat 0 n) src 0 = Normal (src ++ repeat 0 (n - List.length src)).
Proof.
  intros H. unfold set.
  rewrite len_repeat. change (0 <? 0) with false. rewrite Z.add_0_l.
  replace (Z.of_nat n <? len src) with false
    by (symmetry; apply Z.ltb_ge; unfold len; lia).
  cbn [orb Z.to_nat firstn List.app]. rewrite to_nat_len.
  rewrite skipn_repeat_sub. reflexivity.
Qed.

Lemma new_then_set (src : bytes) (n : Z) :
  len src <= n ->
  (out <~ Uint8Array_new n ;; set out src 0)
  = Normal (src ++ repeat 0 (Z.to_nat n - List.length src)).
Proof.
  intros H. pose proof (len_nonneg src).
  rewrite Uint8Array_new_nonneg by lia. cbn [bindC].
  apply set_fresh. unfold len in H. lia.
Qed.

Lemma new_then_set_exact (src : bytes) (n : Z) :
  len src = n -> (out <~ Uint8Array_new n ;; set out src 0) = Normal src.
Proof.
  intros H. rewrite new_then_set by lia.
  rewrite <- H, to_nat_len, Nat.sub_diag. cbn [repeat].
  rewrite app_nil_r. reflexivity.
Qed.

(* ===================================================================== *)
(** * PKCS7 padding *)
(* ===================================================================== *)

Lemma pkcs7Pad_16 (buf : bytes) :
  pkcs7Pad buf 16 =
  Normal (buf ++ repeat (16 - len buf mod 16)
                   (Z.to_nat (16 - len buf mod 16))).
Proof.
  pose proof (len_nonneg buf) as Hl.
  pose proof (Z.mod_pos_bound (len buf) 16 ltac:(lia)) as Hm.
  unfold pkcs7Pad, JS.rem. rewrite Z.rem_mod_nonneg by lia.
  set (p := 16 - len buf mod 16) in *.
  rewrite Uint8Array_new_nonneg by lia. cbn [bindC].
  rewrite set_fresh by (unfold len in *; lia). cbn [bindC]. f_equal.
  replace (Z.to_nat (len buf + p) - List.length buf)%nat with (Z.to_nat p)
    by (unfold len; lia).
  unfold fill, clamp.
  rewrite (ltb_nonneg_false _ Hl).
  rewrite Z.min_l by (rewrite len_app, len_repeat; lia).
  rewrite to_nat_len.
  rewrite firstn_app, firstn_all, Nat.sub_diag.
  cbn [firstn]. rewrite app_nil_r. f_equal.
  rewrite length_app, repeat_length.
  unfold ToUint8. rewrite Z.mod_small by lia.
  f_equal. lia.
Qed.

Lemma get_rev (buf : bytes) (k : nat) :
  get buf (len buf - 1 - Z.of_nat k) = nth_error (rev buf) k.
Proof.
  rewrite nth_error_rev. unfold get, len.
  destruct (Nat.ltb_spec k (List.length buf)) as [Hlt | Hge].
  - rewrite ltb_nonneg_false by lia. f_equal. lia.
  - replace (Z.of_nat (List.length buf) - 1 - Z.of_nat k <? 0) with true
      by (symmetry; apply Z.ltb_lt; lia).
    reflexivity.
Qed.

Lemma skipn_cons_nth {A} (l : list A) (k : nat) (x : A) :
  nth_error l k = Some x -> skipn k l = x :: skipn (S k) l.
Proof.
  revert k. induction l as [| y l IH]; intros [| k] H; simpl in *.
  - discriminate.
  - discriminate.
  - congruence.
  - apply IH. exact H.
Qed.

(** The checking loop finds no mismatch exactly when the bytes it visits,
    from the end of the buffer backwards, exist and equal [pad]. *)
Lemma unpad_mismatch_spec (n k : nat) (buf : bytes) (pad : Z) :
  unpad_mismatch n (1 + Z.of_nat k) buf pad = false
  <-> firstn n (skipn k (rev buf)) = repeat pad n.
Proof.
  revert k. induction n as [| n IH]; intros k.
  - simpl. split; reflexivity.
  - cbn [unpad_mismatch repeat].
    replace (len buf - (1 + Z.of_nat k)) with (len buf - 1 - Z.of_nat k)
      by lia.
    rewrite get_rev.
    destruct (nth_error (rev buf) k) as [y |] eqn:E; cbn [strict_neq].
    + rewrite (skipn_cons_nth _ _ _ E). cbn [firstn].
      destruct (Z.eqb_spec y pad) as [-> | Hne]; cbn [negb].
      * replace (1 + Z.of_nat k + 1) with (1 + Z.of_nat (S k)) by lia.
        rewrite IH. split; intros H; [f_equal; exact H | congruence].
      * split; intros H; [discriminate | congruence].
    + apply nth_error_None in E.
      rewrite skipn_all2 by exact E. cbn [firstn].
      split; intros H; discriminate.
Qed.

Lemma unpad_mismatch_valid (buf : bytes) (p : Z) :
  unpad_mismatch (Z.to_nat p) 1 buf p = false <-> padding_valid buf p.
Proof.
  change 1 with (1 + Z.of_nat 0) at 1.
  rewrite unpad_mismatch_spec. cbn [skipn].
  unfold padding_valid, final_bytes.
  set (n := Z.to_nat p). split.
  - intros H.
    assert (Hn : (n <= List.length buf)%nat).
    { apply (f_equal (@List.length Z)) in H.
      rewrite length_firstn, length_rev, repeat_length in H. lia. }
    split; [exact Hn |].
    rewrite firstn_rev in H.
    apply (f_equal (@rev Z)) in H. rewrite rev_involutive, rev_repeat in H.
    rewrite H. apply Forall_forall. intros x Hx.
    apply repeat_spec in Hx. exact Hx.
  - intros [Hn Hall].
    rewrite firstn_rev.
    assert (Hrep : skipn (List.length buf - n) buf = repeat p n).
    { replace n with (List.length (skipn (List.length buf - n) buf)) at 2
        by (rewrite length_skipn; lia).
      apply Forall_eq_repeat.
      eapply Forall_impl; [| exact Hall]. intros x Hx. symmetry. exact Hx. }
    rewrite Hrep. apply rev_repeat.
Qed.

(** A buffer that ends in valid padding is cut by it, silently. *)
Lemma pkcs7Unpad_valid (buf : bytes) (p : Z) :
  get buf (len buf - 1) = Some p -> 0 <= p -> padding_valid buf p ->
  pkcs7Unpad buf
  = ([], Normal (firstn (List.length buf - Z.to_nat p) buf)).
Proof.
  intros Hget Hp Hvalid. unfold pkcs7Unpad. rewrite Hget.
  rewrite (proj2 (unpad_mismatch_valid buf p) Hvalid).
  destruct Hvalid as [Hn _].
  assert (Hle : p <= len buf) by (unfold len; lia).
  rewrite subarray_prefix by lia.
  replace (Z.to_nat (len buf - p)) with (List.length buf - Z.to_nat p)%nat
    by (unfold len; lia).
  rewrite new_then_set_exact; [reflexivity |].
  unfold len. rewrite length_firstn. lia.
Qed.

(** Otherwise the warning is emitted and the buffer comes back whole. *)
Lemma pkcs7Unpad_invalid (buf : bytes) (p : Z) :
  get buf (len buf - 1) = Some p -> ~ padding_valid buf p ->
  pkcs7Unpad buf
  = ([ConsoleWarn "PKCS7 unpad failed, returning padded data"], Normal buf).
Proof.
  intros Hget Hinvalid. unfold pkcs7Unpad. rewrite Hget.
  destruct (unpad_mismatch (Z.to_nat p) 1 buf p) eqn:E.
  - reflexivity.
  - apply unpad_mismatch_valid in E. contradiction.
Qed.

Lemma get_last (buf : bytes) (x : Z) :
  get (buf ++ [x]) (len (buf ++ [x]) - 1) = Some x.
Proof.
  rewrite len_app. change (len [x]) with 1.
  replace (len buf + 1 - 1) with (len buf) by lia.
  apply get_app_len.
Qed.

(** Padding appended to a buffer is removed again. *)
Lemma pkcs7Unpad_padded (buf : bytes) (p : Z) :
  1 <= p ->
  pkcs7Unpad (buf ++ repeat p (Z.to_nat p)) = ([], Normal buf).
Proof.
  intros Hp.
  assert (Hn : Z.to_nat p = S (Z.to_nat (p - 1))) by lia.
  assert (Hget : get (buf ++ repeat p (Z.to_nat p))
                   (len (buf ++ repeat p (Z.to_nat p)) - 1) = Some p).
  { rewrite Hn. cbn [repeat]. rewrite repeat_cons, app_assoc.
    apply get_last. }
  assert (Hskip : forall n : nat,
             (List.length buf + n - n)%nat = (List.length buf + 0)%nat)
    by (intros; lia).
  assert (Hvalid : padding_valid (buf ++ repeat p (Z.to_nat p)) p).
  { unfold padding_valid, final_bytes.
    rewrite length_app, repeat_length. split; [lia |].
    rewrite Hskip, skipn_app, Nat.add_0_r, skipn_all, Nat.sub_diag.
    cbn [List.app skipn]. apply Forall_forall. intros x Hx.
    apply repeat_spec in Hx. exact Hx. }
  rewrite (pkcs7Unpad_valid _ p Hget) by (lia || exact Hvalid).
  rewrite length_app, repeat_length, Hskip.
  rewrite firstn_app_2. cbn [firstn]. rewrite app_nil_r. reflexivity.
Qed.

(** C6. For every buffer of length 0 through 64 and block size 16,
    unpadding the padded buffer gives the buffer back (and no warning). *)
Theorem pkcs7_unpad_pad (buf : bytes) (Hlen : (List.length buf <= 64)%nat) :
  bindM (lift (pkcs7Pad buf 16)) pkcs7Unpad = ([], Normal buf).
Proof.
  rewrite pkcs7Pad_16. unfold lift. cbn [bindM].
  rewrite pkcs7Unpad_padded.
  - reflexivity.
  - pose proof (Z.mod_pos_bound (len buf) 16 ltac:(lia)). lia.
Qed.

Lemma pkcs7_unpad_pad_witness :
  bindM (lift (pkcs7Pad [0x78; 0x9c; 0x03; 0x00; 0x10] 16)) pkcs7Unpad
  = ([], Normal [0x78; 0x9c; 0x03; 0x00; 0x10]).
Proof.
  apply (pkcs7_unpad_pad [0x78; 0x9c; 0x03; 0x00; 0x10]).
  simpl. lia.
Defined.

(** C7. For a non-empty byte buffer, with [p] its last byte: if the final [p]
    bytes all equal [p], [pkcs7Unpad] returns the buffer cut by [p] bytes;
    otherwise it emits a warning and returns the buffer unmodified, with
    the same contents and length, and does not throw. *)
Theorem pkcs7Unpad_soft_failure (buf : bytes)
  (Hne : buf <> []) (Hok : bytes_ok buf) :
  let p := last buf 0 in
  (padding_valid buf p ->
   pkcs7Unpad buf
   = ([], Normal (firstn (List.length buf - Z.to_nat p) buf)))
  /\ (~ padding_valid buf p ->
      pkcs7Unpad buf
      = ([ConsoleWarn "PKCS7 unpad failed, returning padded data"],
         Normal buf)).
Proof.
  intros p.
  destruct (exists_last Hne) as (front & x & Hbuf).
  assert (Hp : p = x) by (unfold p; rewrite Hbuf; apply last_last).
  assert (Hget : get buf (len buf - 1) = Some p)
    by (rewrite Hp, Hbuf; apply get_last).
  assert (H0 : 0 <= p).
  { unfold bytes_ok in Hok. rewrite Forall_forall in Hok.
    apply Hok. rewrite Hbuf, Hp. apply in_or_app. right. left. reflexivity. }
  split; intros H.
  - apply pkcs7Unpad_valid; assumption.
  - apply (pkcs7Unpad_invalid buf p); assumption.
Qed.

Lemma pkcs7Unpad_soft_failure_witness :
  pkcs7Unpad [0x78; 0x01; 0x02; 0x02]
  = ([], Normal [0x78; 0x01])
  /\ pkcs7Unpad [0x78; 0x01; 0x03; 0x02]
     = ([ConsoleWarn "PKCS7 unpad failed, returning padded data"],
        Normal [0x78; 0x01; 0x03; 0x02]).
Proof.
  split.
  - apply (proj1 (pkcs7Unpad_soft_failure [0x78; 0x01; 0x02; 0x02]
                    ltac:(discriminate)
                    ltac:(unfold bytes_ok; repeat constructor; lia))).
    unfold padding_valid, final_bytes. simpl.
    split; [lia | repeat constructor].
  - apply (proj2 (pkcs7Unpad_soft_failure [0x78; 0x01; 0x03; 0x02]
                    ltac:(discriminate)
                    ltac:(unfold bytes_ok; repeat constructor; lia))).
    unfold padding_valid, final_bytes. simpl.
    intros [_ H]. inversion H as [| ? ? Hx _]. discriminate Hx.
Defined.

(* ===================================================================== *)
(** * The trim heuristic *)
(* ===================================================================== *)

Lemma bindM_lift_Normal {A B} (a : A) (k : A -> M B) :
  bindM (lift (Normal a)) k = k a.
Proof. unfold bindM, lift. destruct (k a). reflexivity. Qed.

Lemma bindM_lift_Throw {A B} (e : exn) (k : A -> M B) :
  bindM (lift (Throw e)) k = ([], Throw e).
Proof. reflexivity. Qed.

Lemma candidate_length (pt : bytes) (t : nat) :
  List.length (candidate pt t) = (List.length pt - t)%nat.
Proof. unfold candidate. rewrite length_firstn. lia. Qed.

(** One guarded iteration of the loop, by what becomes of its candidate:
    the loop goes on after a skipped candidate and after a failed call, and
    it is left as soon as inflate returns, with or without data. *)
Lemma trim_body_spec (pk : PakoLib) (pt : bytes) (t : nat) :
  try_catch (trim_body pk pt (Z.of_nat t)) (fun _ => ret None)
  = match attempt_of pk (candidate pt t) with
    | Skipped => ([], Normal None)
    | Failed _ => ([PakoInflate (candidate pt t)], Normal None)
    | NoData => ([PakoInflate (candidate pt t)], Normal (Some None))
    | Accepted out =>
        ([PakoInflate (candidate pt t)], Normal (Some (Some out)))
    end.
Proof.
  unfold trim_body.
  destruct (Z.lt_ge_cases (len pt - Z.of_nat t) 0) as [Hneg | Hpos].
  - rewrite Uint8Array_new_negative by exact Hneg.
    rewrite bindM_lift_Throw.
    replace (candidate pt t) with (@nil Z).
    + reflexivity.
    + unfold candidate.
      replace (List.length pt - t)%nat with 0%nat by (unfold len in Hneg; lia).
      reflexivity.
  - rewrite Uint8Array_new_nonneg by exact Hpos.
    rewrite bindM_lift_Normal.
    rewrite subarray_prefix by exact Hpos.
    replace (Z.to_nat (len pt - Z.of_nat t)) with (List.length pt - t)%nat
      by (unfold len; lia).
    fold (candidate pt t).
    rewrite set_fresh by (rewrite candidate_length; lia).
    rewrite candidate_length, Nat.sub_diag. cbn [repeat].
    rewrite app_nil_r, bindM_lift_Normal.
    unfold attempt_of.
    destruct (candidate pt t) as [| first rest]; [reflexivity |].
    change (get (first :: rest) 0) with (Some first). cbn [strict_neq].
    destruct (first =? 120); cbn [negb]; [| reflexivity].
    destruct (inflate pk (first :: rest)) as [[out |] | e]; reflexivity.
Qed.

(** The loop over the trims is the walk over the candidates. *)
Lemma trim_loop_spec (pk : PakoLib) (pt : bytes) (trims : list nat) :
  trim_loop pk pt (map Z.of_nat trims)
  = (fst (trim_walk pk pt trims), Normal (snd (trim_walk pk pt trims))).
Proof.
  induction trims as [| t rest IH].
  - reflexivity.
  - cbn [map trim_loop trim_walk]. rewrite trim_body_spec.
    destruct (attempt_of pk (candidate pt t)) as [| e | | out].
    + cbn [bindM]. rewrite IH. reflexivity.
    + cbn [bindM]. rewrite IH.
      destruct (trim_walk pk pt rest) as [evs r]. reflexivity.
    + reflexivity.
    + reflexivity.
Qed.

Lemma attempt_accepted (pk : PakoLib) (c out : bytes) :
  attempt_of pk c = Accepted out <-> accepted pk c out.
Proof.
  unfold attempt_of, accepted. split.
  - destruct c as [| first rest]; [discriminate |].
    destruct (Z.eqb_spec first 120) as [-> | Hne]; [| discriminate].
    destruct (inflate pk (120 :: rest)) as [[o |] | e]; try discriminate.
    intros H. injection H as ->. split; [exists rest |]; reflexivity.
  - intros [[rest ->] Hinf]. cbn. rewrite Hinf. reflexivity.
Qed.

Lemma attempt_not_accepted (pk : PakoLib) (c : bytes) :
  (~ exists out, accepted pk c out)
  <-> attempt_of pk c = Skipped \/ (exists e, attempt_of pk c = Failed e)
      \/ attempt_of pk c = NoData.
Proof.
  split.
  - intros H. destruct (attempt_of pk c) as [| e | | out] eqn:E.
    + left. reflexivity.
    + right. left. exists e. reflexivity.
    + right. right. reflexivity.
    + exfalso. apply H. exists out. apply attempt_accepted. exact E.
  - intros [H | [[e H] | H]] [out Hacc]; apply attempt_accepted in Hacc;
      congruence.
Qed.

(** Inflate returned without data on a candidate that starts with [0x78]. *)
Lemma attempt_no_data (pk : PakoLib) (c : bytes) :
  attempt_of pk c = NoData
  <-> (exists rest, c = 0x78 :: rest) /\ inflate pk c = Normal None.
Proof.
  unfold attempt_of. split.
  - destruct c as [| first rest]; [discriminate |].
    destruct (Z.eqb_spec first 120) as [-> | Hne]; [| discriminate].
    destruct (inflate pk (120 :: rest)) as [[o |] | e]; try discriminate.
    intros _. split; [exists rest |]; reflexivity.
  - intros [[rest ->] Hinf]. cbn. rewrite Hinf. reflexivity.
Qed.

(** The walk of the loop and the walk of the specification agree on the
    trims 4 and 8 unless inflate returns without data on the 4-byte-trim
    candidate. *)
Lemma trim_walk_spec (pk : PakoLib) (pt : bytes) :
  attempt_of pk (candidate pt 4) <> NoData ->
  fst (trim_walk pk pt [4; 8]%nat) = fst (trim_spec pk pt [4; 8]%nat)
  /\ accepted_of (snd (trim_walk pk pt [4; 8]%nat))
     = snd (trim_spec pk pt [4; 8]%nat).
Proof.
  intros H4. cbn [trim_walk trim_spec].
  destruct (attempt_of pk (candidate pt 4)) as [| e4 | | out4];
    [| | contradiction |];
    destruct (attempt_of pk (candidate pt 8)) as [| e8 | | out8];
    split; reflexivity.
Qed.

(* ===================================================================== *)
(** * Word arrays *)
(* ===================================================================== *)

Lemma word_bytes_ok (w : Z) : bytes_ok (word_bytes w).
Proof. unfold word_bytes. repeat constructor; apply band_255_byte. Qed.

Lemma map_ToUint8_bytes (l : bytes) : bytes_ok l -> map ToUint8 l = l.
Proof.
  intros H. induction H as [| x l Hx Hl IH]; simpl.
  - reflexivity.
  - unfold ToUint8 at 1. rewrite Z.mod_small by lia. rewrite IH.
    reflexivity.
Qed.

(** [src] written over the part [mid] of the target, of the same length. *)
Lemma set_middle (done mid rest src : bytes) :
  List.length mid = List.length src ->
  set (done ++ mid ++ rest) src (len done) = Normal (done ++ src ++ rest).
Proof.
  intros H. unfold set.
  rewrite (ltb_nonneg_false _ (len_nonneg done)).
  replace (len (done ++ mid ++ rest) <? len done + len src) with false
    by (symmetry; apply Z.ltb_ge; rewrite !len_app;
        pose proof (len_nonneg rest); unfold len; lia).
  cbn [orb]. rewrite to_nat_len.
  rewrite firstn_app, firstn_all, Nat.sub_diag. cbn [firstn].
  rewrite app_nil_r. f_equal. f_equal. f_equal.
  replace (Z.to_nat (len done + len src))
    with (List.length done + List.length mid)%nat by (unfold len; lia).
  rewrite app_assoc, <- length_app.
  rewrite skipn_app, skipn_all, Nat.sub_diag. reflexivity.
Qed.

(** The write-back loop fills the rest of the output with the bytes of the
    words. *)
Lemma words_loop_spec (ws : list Z) (i : Z) (done rest : bytes) :
  len done = i * 4 -> List.length rest = (4 * List.length ws)%nat ->
  words_loop ws i (done ++ rest)
  = Normal (done ++ flat_map word_bytes ws).
Proof.
  revert i done rest. induction ws as [| w ws IH]; intros i done rest Hd Hr.
  - destruct rest; [| simpl in Hr; lia]. reflexivity.
  - cbn [words_loop flat_map]. unfold set_array.
    rewrite (map_ToUint8_bytes _ (word_bytes_ok w)).
    destruct rest as [| r0 [| r1 [| r2 [| r3 rest]]]];
      try (simpl in Hr; lia).
    rewrite <- Hd.
    change (r0 :: r1 :: r2 :: r3 :: rest) with ([r0; r1; r2; r3] ++ rest).
    rewrite (set_middle done [r0; r1; r2; r3] rest (word_bytes w))
      by reflexivity.
    cbn [bindC]. rewrite app_assoc.
    rewrite IH.
    + rewrite <- app_assoc. reflexivity.
    + rewrite len_app. change (len (word_bytes w)) with 4. lia.
    + simpl in Hr. lia.
Qed.

Lemma wordsToBytes_spec (ws : list Z) :
  wordsToBytes ws = Normal (flat_map word_bytes ws).
Proof.
  unfold wordsToBytes.
  rewrite Uint8Array_new_nonneg by (pose proof (len_nonneg ws); lia).
  cbn [bindC].
  apply (words_loop_spec ws 0 [] _); [reflexivity |].
  rewrite repeat_length. unfold len. lia.
Qed.

(* ===================================================================== *)
(** * The decoder *)
(* ===================================================================== *)

Lemma pkcs7Unpad_total (buf : bytes) :
  exists evs out, pkcs7Unpad buf = (evs, Normal out).
Proof.
  unfold pkcs7Unpad.
  destruct (get buf (len buf - 1)) as [pad |].
  - destruct (unpad_mismatch (Z.to_nat pad) 1 buf pad) eqn:E.
    + eexists. eexists. reflexivity.
    + apply unpad_mismatch_valid in E. destruct E as [Hn _].
      assert (Hle : 0 <= len buf - pad) by (unfold len; lia).
      rewrite subarray_prefix by exact Hle.
      rewrite new_then_set.
      * eexists. eexists. reflexivity.
      * unfold len. rewrite length_firstn. lia.
  - rewrite subarray_prefix by lia.
    rewrite new_then_set by (cbn; lia).
    eexists. eexists. reflexivity.
Qed.

(** Decryption, cutting to the file's length and unpadding always hand a
    plaintext to the trim loop. *)
Lemma decrypt_unpadded_total (cj : CryptoJSLib) (ciph : bytes)
  (userID : jsstring) :
  exists evs pt, decrypt_unpadded cj ciph userID = (evs, Normal pt).
Proof.
  unfold decrypt_unpadded.
  destruct (deriveKey_total userID) as (u & _ & _ & Hk).
  rewrite Hk, bindM_lift_Normal.
  rewrite wordsToBytes_spec, bindM_lift_Normal.
  rewrite Uint8Array_new_nonneg by apply len_nonneg.
  rewrite bindM_lift_Normal.
  rewrite subarray_prefix by apply len_nonneg.
  rewrite to_nat_len.
  rewrite set_fresh by (rewrite length_firstn; lia).
  rewrite bindM_lift_Normal.
  apply pkcs7Unpad_total.
Qed.

(** With an identity and both libraries present, [decryptSave] is the walk
    over the two candidates of the unpadded plaintext, followed by the error
    or by the log line and the UTF-8 decoding. *)
Lemma decryptSave_run (cj : CryptoJSLib) (pk : PakoLib) (ciph : bytes)
  (userID : jsstring) (evs : list event) (pt : bytes) :
  userID <> [] ->
  decrypt_unpadded cj ciph userID = (evs, Normal pt) ->
  decryptSave {| CryptoJS := Some cj; pako := Some pk |} ciph userID
  = match snd (trim_walk pk pt [4; 8]%nat) with
    | (None, _) =>
        (evs ++ fst (trim_walk pk pt [4; 8]%nat), Throw DecompressFailure)
    | (Some out, t) =>
        (evs ++ fst (trim_walk pk pt [4; 8]%nat)
             ++ [ConsoleLog ("Successfully decompressed with trim="
                               ++ String_of_trimUsed t)],
         Normal (TextDecoder_decode out))
    end.
Proof.
  intros Hid Hpt. destruct userID as [| c userID]; [contradiction |].
  unfold decryptSave. cbn [CryptoJS pako]. rewrite Hpt. cbn [bindM].
  change [4; 8] with (map Z.of_nat [4; 8]%nat).
  rewrite trim_loop_spec.
  destruct (trim_walk pk pt [4; 8]%nat) as [tevs [[out |] t]];
    cbn [fst snd bindM emit ret throw].
  - reflexivity.
  - rewrite app_nil_r. reflexivity.
Qed.

(** The run of [decryptSave] when the 4-byte-trim candidate is accepted. *)
Lemma decryptSave_accepts_4 (cj : CryptoJSLib) (pk : PakoLib) (ciph : bytes)
  (userID : jsstring) (evs : list event) (pt out : bytes) :
  userID <> [] ->
  decrypt_unpadded cj ciph userID = (evs, Normal pt) ->
  accepted pk (candidate pt 4) out ->
  decryptSave {| CryptoJS := Some cj; pako := Some pk |} ciph userID
  = (evs ++ [PakoInflate (candidate pt 4);
             ConsoleLog "Successfully decompressed with trim=4"],
     Normal (TextDecoder_decode out)).
Proof.
  intros Hid Hpt Hacc.
  rewrite (decryptSave_run cj pk ciph userID evs pt Hid Hpt).
  cbn [trim_walk].
  rewrite (proj2 (attempt_accepted _ _ _) Hacc). reflexivity.
Qed.

(** The run of [decryptSave] when inflate returns without data on the
    4-byte-trim candidate: the loop is left, and the error follows. *)
Lemma decryptSave_no_data_4 (cj : CryptoJSLib) (pk : PakoLib) (ciph : bytes)
  (userID : jsstring) (evs : list event) (pt : bytes) :
  userID <> [] ->
  decrypt_unpadded cj ciph userID = (evs, Normal pt) ->
  attempt_of pk (candidate pt 4) = NoData ->
  decryptSave {| CryptoJS := Some cj; pako := Some pk |} ciph userID
  = (evs ++ [PakoInflate (candidate pt 4)], Throw DecompressFailure).
Proof.
  intros Hid Hpt H4.
  rewrite (decryptSave_run cj pk ciph userID evs pt Hid Hpt).
  cbn [trim_walk]. rewrite H4. reflexivity.
Qed.

(** C2. The loop of [decryptSave] walks the trim candidates in the order 4,
    8; a candidate that is empty or does not start with 0x78 is skipped
    without a call to inflate; after a call that throws the next candidate
    is tried; and the loop is left as soon as a call returns.  This is the
    walk of the specification (the first candidate that starts with 0x78 and
    inflates successfully is accepted, later ones are not tried) unless
    inflate returns without data on the 4-byte-trim candidate.  When the
    4-byte-trim candidate of the unpadded buffer starts with 0x78 and
    inflates, inflate is called once, on that candidate, and [decryptSave]
    returns the decoding of its output.  When inflate returns without data
    on the 4-byte-trim candidate, the loop is left all the same: the
    8-byte-trim candidate is not tried although it starts with 0x78 and
    inflates, where the specification accepts it, and [decryptSave] fails. *)
Theorem trim_heuristic_selection (pk : PakoLib) :
  (forall pt,
      trim_loop pk pt [4; 8]
      = (fst (trim_walk pk pt [4; 8]%nat),
         Normal (snd (trim_walk pk pt [4; 8]%nat))))
  /\ (forall pt,
        attempt_of pk (candidate pt 4) <> NoData ->
        fst (trim_walk pk pt [4; 8]%nat) = fst (trim_spec pk pt [4; 8]%nat)
        /\ accepted_of (snd (trim_walk pk pt [4; 8]%nat))
           = snd (trim_spec pk pt [4; 8]%nat))
  /\ (forall pt out,
        accepted pk (candidate pt 4) out ->
        trim_loop pk pt [4; 8]
        = ([PakoInflate (candidate pt 4)], Normal (Some out, Some 4)))
  /\ (forall cj ciph userID evs pt out,
        userID <> [] ->
        decrypt_unpadded cj ciph userID = (evs, Normal pt) ->
        accepted pk (candidate pt 4) out ->
        decryptSave {| CryptoJS := Some cj; pako := Some pk |} ciph userID
        = (evs ++ [PakoInflate (candidate pt 4);
                   ConsoleLog "Successfully decompressed with trim=4"],
           Normal (TextDecoder_decode out)))
  /\ (forall cj ciph userID evs pt out8,
        userID <> [] ->
        decrypt_unpadded cj ciph userID = (evs, Normal pt) ->
        attempt_of pk (candidate pt 4) = NoData ->
        accepted pk (candidate pt 8) out8 ->
        trim_loop pk pt [4; 8]
        = ([PakoInflate (candidate pt 4)], Normal (None, Some 4))
        /\ trim_spec pk pt [4; 8]%nat
           = ([PakoInflate (candidate pt 4); PakoInflate (candidate pt 8)],
              Some (out8, 8))
        /\ decryptSave {| CryptoJS := Some cj; pako := Some pk |} ciph userID
           = (evs ++ [PakoInflate (candidate pt 4)],
              Throw DecompressFailure)).
Proof.
  split; [| split; [| split; [| split]]].
  - intros pt. apply (trim_loop_spec pk pt [4; 8]%nat).
  - intros pt. apply trim_walk_spec.
  - intros pt out Hacc.
    change [4; 8] with (map Z.of_nat [4; 8]%nat).
    rewrite trim_loop_spec. cbn [trim_walk].
    rewrite (proj2 (attempt_accepted _ _ _) Hacc). reflexivity.
  - intros cj ciph userID evs pt out. apply decryptSave_accepts_4.
  - intros cj ciph userID evs pt out8 Hid Hpt H4 Hacc.
    split; [| split].
    + change [4; 8] with (map Z.of_nat [4; 8]%nat).
      rewrite trim_loop_spec. cbn [trim_walk]. rewrite H4. reflexivity.
    + cbn [trim_spec]. rewrite H4.
      rewrite (proj2 (attempt_accepted _ _ _) Hacc). reflexivity.
    + apply decryptSave_no_data_4; assumption.
Qed.

(** The file that [encryptSave] writes for the text "j: z9" with the
    stand-ins: the chunks of the text, its checksum [78 01 8c 04], its
    length, and the padding. *)
Lemma trim_heuristic_selection_witness :
  encryptSave (plain_window chunked_pako) checksum_text steam_id
  = Normal [0x78; 1; 106; 1; 58; 1; 32; 1; 122; 1; 57; 0;
            0x78; 0x01; 0x8c; 0x04; 5; 0; 0; 0;
            12; 12; 12; 12; 12; 12; 12; 12; 12; 12; 12; 12]
  /\ trim_loop chunked_pako
       [0x78; 1; 106; 1; 58; 1; 32; 1; 122; 1; 57; 0;
        0x78; 0x01; 0x8c; 0x04; 5; 0; 0; 0] [4; 8]
     = ([PakoInflate [0x78; 1; 106; 1; 58; 1; 32; 1; 122; 1; 57; 0;
                      0x78; 0x01; 0x8c; 0x04]],
        Normal (None, Some 4))
  /\ trim_spec chunked_pako
       [0x78; 1; 106; 1; 58; 1; 32; 1; 122; 1; 57; 0;
        0x78; 0x01; 0x8c; 0x04; 5; 0; 0; 0] [4; 8]%nat
     = ([PakoInflate [0x78; 1; 106; 1; 58; 1; 32; 1; 122; 1; 57; 0;
                      0x78; 0x01; 0x8c; 0x04];
         PakoInflate [0x78; 1; 106; 1; 58; 1; 32; 1; 122; 1; 57; 0]],
        Some (TextEncoder_encode checksum_text, 8))
  /\ decryptSave (plain_window chunked_pako)
       [0x78; 1; 106; 1; 58; 1; 32; 1; 122; 1; 57; 0;
        0x78; 0x01; 0x8c; 0x04; 5; 0; 0; 0;
        12; 12; 12; 12; 12; 12; 12; 12; 12; 12; 12; 12] steam_id
     = ([] ++ [PakoInflate [0x78; 1; 106; 1; 58; 1; 32; 1; 122; 1; 57; 0;
                            0x78; 0x01; 0x8c; 0x04]],
        Throw DecompressFailure).
Proof.
  split; [vm_compute; reflexivity |].
  apply (proj2 (proj2 (proj2 (proj2 (trim_heuristic_selection chunked_pako))))
           (cryptojs_of_cipher plain_cipher plain_cipher)
           [0x78; 1; 106; 1; 58; 1; 32; 1; 122; 1; 57; 0;
            0x78; 0x01; 0x8c; 0x04; 5; 0; 0; 0;
            12; 12; 12; 12; 12; 12; 12; 12; 12; 12; 12; 12]
           steam_id []
           [0x78; 1; 106; 1; 58; 1; 32; 1; 122; 1; 57; 0;
            0x78; 0x01; 0x8c; 0x04; 5; 0; 0; 0]
           (TextEncoder_encode checksum_text)).
  - discriminate.
  - vm_compute. reflexivity.
  - vm_compute. reflexivity.
  - split; [eexists; reflexivity | vm_compute; reflexivity].
Defined.

(** C9. With an identity and the libraries present, [decryptSave] decrypts,
    cuts to the length of the input and unpads without failing.  It then
    fails with the error "Zlib decompress failed. Wrong user ID or file
    format?" if neither the 4-byte-trim nor the 8-byte-trim candidate both
    starts with 0x78 and inflates; when the 4-byte-trim candidate is
    accepted, or is skipped or makes inflate throw and the 8-byte-trim
    candidate is accepted, it returns the UTF-8 decoding of the inflated
    bytes.  The failure is not only then: [decryptSave] fails exactly when
    the 4-byte-trim candidate is not accepted and either inflate returned
    without data on it or the 8-byte-trim candidate is not accepted; so it
    fails, with an 8-byte-trim candidate that starts with 0x78 and inflates,
    when inflate returns without data on the 4-byte-trim candidate. *)
Theorem decode_failure_iff (cj : CryptoJSLib) (pk : PakoLib) (ciph : bytes)
  (userID : jsstring) (Hid : userID <> []) :
  (exists evs pt, decrypt_unpadded cj ciph userID = (evs, Normal pt))
  /\ forall evs pt,
       decrypt_unpadded cj ciph userID = (evs, Normal pt) ->
       let result :=
         snd (decryptSave {| CryptoJS := Some cj; pako := Some pk |}
                ciph userID) in
       ((~ exists out, accepted pk (candidate pt 4) out)
        /\ (~ exists out, accepted pk (candidate pt 8) out)
        -> result = Throw DecompressFailure)
       /\ (forall out,
             accepted pk (candidate pt 4) out ->
             result = Normal (TextDecoder_decode out))
       /\ (forall out,
             attempt_of pk (candidate pt 4) = Skipped
             \/ (exists e, attempt_of pk (candidate pt 4) = Failed e) ->
             accepted pk (candidate pt 8) out ->
             result = Normal (TextDecoder_decode out))
       /\ (result = Throw DecompressFailure
           <-> (~ exists out, accepted pk (candidate pt 4) out)
               /\ (attempt_of pk (candidate pt 4) = NoData
                   \/ ~ exists out, accepted pk (candidate pt 8) out))
       /\ (forall out8,
             attempt_of pk (candidate pt 4) = NoData ->
             accepted pk (candidate pt 8) out8 ->
             result = Throw DecompressFailure).
Proof.
  split; [apply decrypt_unpadded_total |].
  intros evs pt Hpt. cbv zeta.
  rewrite (decryptSave_run cj pk ciph userID evs pt Hid Hpt).
  cbn [trim_walk].
  rewrite !attempt_not_accepted.
  split; [| split; [| split; [| split]]].
  - destruct (attempt_of pk (candidate pt 4)) as [| e4 | | out4] eqn:E4;
      destruct (attempt_of pk (candidate pt 8)) as [| e8 | | out8] eqn:E8;
      cbn [fst snd]; try reflexivity;
      intros [[H4 | [[e H4] | H4]] [H8 | [[e' H8] | H8]]]; discriminate.
  - intros out Hacc. apply attempt_accepted in Hacc. rewrite Hacc.
    reflexivity.
  - intros out H4 Hacc. apply attempt_accepted in Hacc.
    destruct H4 as [H4 | [e H4]]; rewrite H4, Hacc; reflexivity.
  - destruct (attempt_of pk (candidate pt 4)) as [| e4 | | out4] eqn:E4;
      destruct (attempt_of pk (candidate pt 8)) as [| e8 | | out8] eqn:E8;
      cbn [fst snd]; split;
      try (intros H; discriminate H);
      try (intros _; reflexivity);
      try (intros _; split;
           [first [ left; reflexivity
                  | right; left; eexists; reflexivity
                  | right; right; reflexivity ]
           | first [ left; reflexivity
                   | right; left; reflexivity
                   | right; right; left; eexists; reflexivity
                   | right; right; right; reflexivity ] ]);
      intros [[H4 | [[e H4] | H4]] [H4' | [H8 | [[e' H8] | H8]]]];
      discriminate.
  - intros out8 H4 _. rewrite H4. reflexivity.
Qed.

Lemma decode_failure_iff_witness :
  accepted chunked_pako
    (candidate [0x78; 1; 106; 1; 58; 1; 32; 1; 122; 1; 57; 0;
                0x78; 0x01; 0x8c; 0x04; 5; 0; 0; 0] 8)
    (TextEncoder_encode checksum_text)
  /\ snd (decryptSave
            {| CryptoJS := Some (cryptojs_of_cipher plain_cipher plain_cipher);
               pako := Some chunked_pako |}
            [0x78; 1; 106; 1; 58; 1; 32; 1; 122; 1; 57; 0;
             0x78; 0x01; 0x8c; 0x04; 5; 0; 0; 0;
             12; 12; 12; 12; 12; 12; 12; 12; 12; 12; 12; 12] steam_id)
     = Throw DecompressFailure.
Proof.
  assert (Hacc : accepted chunked_pako
            (candidate [0x78; 1; 106; 1; 58; 1; 32; 1; 122; 1; 57; 0;
                        0x78; 0x01; 0x8c; 0x04; 5; 0; 0; 0] 8)
            (TextEncoder_encode checksum_text))
    by (split; [eexists; reflexivity | vm_compute; reflexivity]).
  split; [exact Hacc |].
  apply (proj2 (proj2 (proj2 (proj2
           (proj2 (decode_failure_iff
                     (cryptojs_of_cipher plain_cipher plain_cipher)
                     chunked_pako
                     [0x78; 1; 106; 1; 58; 1; 32; 1; 122; 1; 57; 0;
                      0x78; 0x01; 0x8c; 0x04; 5; 0; 0; 0;
                      12; 12; 12; 12; 12; 12; 12; 12; 12; 12; 12; 12]
                     steam_id ltac:(discriminate))
              []
              [0x78; 1; 106; 1; 58; 1; 32; 1; 122; 1; 57; 0;
               0x78; 0x01; 0x8c; 0x04; 5; 0; 0; 0]
              ltac:(vm_compute; reflexivity)))))
           (TextEncoder_encode checksum_text)).
  - vm_compute. reflexivity.
  - exact Hacc.
Defined.

(* ===================================================================== *)
(** * Bytes to words and back *)
(* ===================================================================== *)

Lemma list_ind4 {A} (P : list A -> Prop) :
  P [] -> (forall a, P [a]) -> (forall a b, P [a; b]) ->
  (forall a b c, P [a; b; c]) ->
  (forall a b c d l, P l -> P (a :: b :: c :: d :: l)) ->
  forall l, P l.
Proof.
  intros H0 H1 H2 H3 H4 l.
  assert (Hn : forall n l', (List.length l' <= n)%nat -> P l').
  { induction n as [| n IH]; intros l' Hl.
    - destruct l'; [exact H0 | simpl in Hl; lia].
    - destruct l' as [| a [| b [| c [| d l']]]]; auto.
      apply H4. apply IH. simpl in Hl. lia. }
  apply (Hn (List.length l)). lia.
Qed.

(** The word [uint8ArrayToWordArray] builds from four bytes is the signed
    32-bit reading of the big-endian number. *)
Lemma pack_word_bytes (b0 b1 b2 b3 : Z) :
  0 <= b0 < 256 -> 0 <= b1 < 256 -> 0 <= b2 < 256 -> 0 <= b3 < 256 ->
  pack_word (Some b0) (Some b1) (Some b2) (Some b3)
  = ToInt32 (b0 * 2 ^ 24 + b1 * 2 ^ 16 + b2 * 2 ^ 8 + b3).
Proof.
  intros H0 H1 H2 H3. unfold pack_word, bor, shl. cbn [num].
  change (Z.land 24 31) with 24. change (Z.land 16 31) with 16.
  change (Z.land 8 31) with 8.
  rewrite (ToInt32_small b0), (ToInt32_small b1), (ToInt32_small b2),
    (ToInt32_small b3) by lia.
  rewrite !Z.shiftl_mul_pow2 by lia.
  rewrite !(ToInt32_small (b1 * 2 ^ 16)), !(ToInt32_small (b2 * 2 ^ 8))
    by lia.
  set (h0 := ToInt32 (b0 * 2 ^ 24)).
  assert (Hh0 : - 2 ^ 31 <= h0 < 2 ^ 31) by apply ToInt32_range.
  assert (Hm : h0 mod 2 ^ 24 = 0).
  { unfold h0. rewrite <- (Z.mod_mod_divide _ (2 ^ 32) (2 ^ 24))
      by (exists (2 ^ 8); reflexivity).
    rewrite ToInt32_mod.
    rewrite (Z.mod_mod_divide _ (2 ^ 32) (2 ^ 24))
      by (exists (2 ^ 8); reflexivity).
    apply Z.mod_mul. lia. }
  assert (Hq : h0 = 2 ^ 24 * (h0 / 2 ^ 24))
    by (pose proof (Z.div_mod h0 (2 ^ 24) ltac:(lia)); lia).
  rewrite !(ToInt32_small h0) by exact Hh0.
  rewrite (lor_disjoint h0 _ 24) by lia.
  rewrite (ToInt32_small (h0 + _)) by lia.
  rewrite (lor_disjoint _ (b2 * 2 ^ 8) 16).
  2: lia. 2: lia.
  2:{ rewrite Hq. change (2 ^ 24) with (2 ^ 8 * 2 ^ 16).
      replace (2 ^ 8 * 2 ^ 16 * (h0 / (2 ^ 8 * 2 ^ 16)) + b1 * 2 ^ 16)
        with ((2 ^ 8 * (h0 / (2 ^ 8 * 2 ^ 16)) + b1) * 2 ^ 16) by lia.
      apply Z.mod_mul. lia. }
  rewrite (ToInt32_small (h0 + _ + _)) by lia.
  rewrite (lor_disjoint _ b3 8).
  2: lia. 2: lia.
  2:{ rewrite Hq. change (2 ^ 24) with (2 ^ 16 * 2 ^ 8).
      replace (2 ^ 16 * 2 ^ 8 * (h0 / (2 ^ 16 * 2 ^ 8)) + b1 * 2 ^ 16
               + b2 * 2 ^ 8)
        with ((2 ^ 16 * (h0 / (2 ^ 16 * 2 ^ 8)) + b1 * 2 ^ 8 + b2) * 2 ^ 8)
        by lia.
      apply Z.mod_mul. lia. }
  unfold h0, ToInt32. Z.div_mod_to_equations. lia.
Qed.

(** The four bytes [decryptSave] and [encryptSave] read from such a word. *)
Lemma word_bytes_packed (b0 b1 b2 b3 : Z) :
  0 <= b0 < 256 -> 0 <= b1 < 256 -> 0 <= b2 < 256 -> 0 <= b3 < 256 ->
  word_bytes (ToInt32 (b0 * 2 ^ 24 + b1 * 2 ^ 16 + b2 * 2 ^ 8 + b3))
  = [b0; b1; b2; b3].
Proof.
  intros H0 H1 H2 H3. unfold word_bytes.
  rewrite !band_255. unfold sar.
  change (Z.land 24 31) with 24. change (Z.land 16 31) with 16.
  change (Z.land 8 31) with 8.
  rewrite !Z.shiftr_div_pow2 by lia.
  set (w := ToInt32 (b0 * 2 ^ 24 + b1 * 2 ^ 16 + b2 * 2 ^ 8 + b3)).
  rewrite (ToInt32_small w) by apply ToInt32_range.
  assert (Hw : exists c, (c = 0 \/ c = 1)
               /\ w = b0 * 2 ^ 24 + b1 * 2 ^ 16 + b2 * 2 ^ 8 + b3
                      - c * 2 ^ 32).
  { unfold w, ToInt32.
    destruct (Z.lt_ge_cases b0 128).
    - exists 0. split; [left; reflexivity |].
      rewrite Z.mod_small by lia. lia.
    - exists 1. split; [right; reflexivity |].
      replace (b0 * 2 ^ 24 + b1 * 2 ^ 16 + b2 * 2 ^ 8 + b3 + 2 ^ 31)
        with (b0 * 2 ^ 24 + b1 * 2 ^ 16 + b2 * 2 ^ 8 + b3 - 2 ^ 31
              + 1 * 2 ^ 32) by lia.
      rewrite Z.mod_add by lia. rewrite Z.mod_small by lia. lia. }
  destruct Hw as (c & Hc & Hw). rewrite Hw.
  repeat (f_equal; [Z.div_mod_to_equations; lia |]).
  f_equal. Z.div_mod_to_equations; lia.
Qed.

(** The four bytes CryptoJS reads from such a word. *)
Lemma word_be_bytes_packed (b0 b1 b2 b3 : Z) :
  0 <= b0 < 256 -> 0 <= b1 < 256 -> 0 <= b2 < 256 -> 0 <= b3 < 256 ->
  word_be_bytes (ToInt32 (b0 * 2 ^ 24 + b1 * 2 ^ 16 + b2 * 2 ^ 8 + b3))
  = [b0; b1; b2; b3].
Proof.
  intros H0 H1 H2 H3. unfold word_be_bytes. cbv zeta.
  rewrite ToInt32_mod.
  rewrite (Z.mod_small (b0 * 2 ^ 24 + b1 * 2 ^ 16 + b2 * 2 ^ 8 + b3))
    by lia.
  repeat (f_equal; [Z.div_mod_to_equations; lia |]).
  f_equal. Z.div_mod_to_equations; lia.
Qed.

Lemma pack_word_short (b0 b1 b2 b3 : option Z) :
  pack_word b0 b1 b2 b3
  = pack_word (Some (num b0)) (Some (num b1)) (Some (num b2)) (Some (num b3)).
Proof. unfold pack_word. cbn [num]. reflexivity. Qed.

(** On bytes, the words of [uint8ArrayToWordArray] are those of CryptoJS. *)
Lemma pack_words_be (b : bytes) : bytes_ok b -> pack_words b = be_words b.
Proof.
  induction b as [| b0 | b0 b1 | b0 b1 b2 | b0 b1 b2 b3 rest IH]
    using list_ind4; intros Hok; cbn [pack_words be_words].
  - reflexivity.
  - inversion_clear Hok as [| ? ? H0 _].
    rewrite pack_word_short. cbn [num].
    rewrite pack_word_bytes by lia. do 2 f_equal. lia.
  - inversion_clear Hok as [| ? ? H0 Hok1].
    inversion_clear Hok1 as [| ? ? H1 _].
    rewrite pack_word_short. cbn [num].
    rewrite pack_word_bytes by lia. do 2 f_equal. lia.
  - inversion_clear Hok as [| ? ? H0 Hok1].
    inversion_clear Hok1 as [| ? ? H1 Hok2].
    inversion_clear Hok2 as [| ? ? H2 _].
    rewrite pack_word_short. cbn [num].
    rewrite pack_word_bytes by lia. do 2 f_equal. lia.
  - inversion_clear Hok as [| ? ? H0 Hok1].
    inversion_clear Hok1 as [| ? ? H1 Hok2].
    inversion_clear Hok2 as [| ? ? H2 Hok3].
    inversion_clear Hok3 as [| ? ? H3 Hrest].
    rewrite pack_word_bytes by lia. f_equal. apply IH. exact Hrest.
Qed.

(** CryptoJS reads from its words the bytes they were built from. *)
Lemma be_words_bytes (b : bytes) :
  bytes_ok b ->
  firstn (List.length b) (flat_map word_be_bytes (be_words b)) = b.
Proof.
  induction b as [| b0 | b0 b1 | b0 b1 b2 | b0 b1 b2 b3 rest IH]
    using list_ind4; intros Hok; cbn [be_words flat_map].
  - reflexivity.
  - inversion_clear Hok as [| ? ? H0 _].
    replace (b0 * 2 ^ 24) with (b0 * 2 ^ 24 + 0 * 2 ^ 16 + 0 * 2 ^ 8 + 0)
      by lia.
    rewrite word_be_bytes_packed by lia. reflexivity.
  - inversion_clear Hok as [| ? ? H0 Hok1].
    inversion_clear Hok1 as [| ? ? H1 _].
    replace (b0 * 2 ^ 24 + b1 * 2 ^ 16)
      with (b0 * 2 ^ 24 + b1 * 2 ^ 16 + 0 * 2 ^ 8 + 0) by lia.
    rewrite word_be_bytes_packed by lia. reflexivity.
  - inversion_clear Hok as [| ? ? H0 Hok1].
    inversion_clear Hok1 as [| ? ? H1 Hok2].
    inversion_clear Hok2 as [| ? ? H2 _].
    replace (b0 * 2 ^ 24 + b1 * 2 ^ 16 + b2 * 2 ^ 8)
      with (b0 * 2 ^ 24 + b1 * 2 ^ 16 + b2 * 2 ^ 8 + 0) by lia.
    rewrite word_be_bytes_packed by lia. reflexivity.
  - inversion_clear Hok as [| ? ? H0 Hok1].
    inversion_clear Hok1 as [| ? ? H1 Hok2].
    inversion_clear Hok2 as [| ? ? H2 Hok3].
    inversion_clear Hok3 as [| ? ? H3 Hrest].
    rewrite word_be_bytes_packed by lia.
    cbn [List.length List.app firstn]. rewrite IH by exact Hrest.
    reflexivity.
Qed.

(** The codec reads from the words of CryptoJS, built from whole groups of
    four bytes, the bytes they were built from. *)
Lemma be_words_word_bytes (b : bytes) :
  bytes_ok b -> (List.length b mod 4 = 0)%nat ->
  flat_map word_bytes (be_words b) = b.
Proof.
  induction b as [| b0 | b0 b1 | b0 b1 b2 | b0 b1 b2 b3 rest IH]
    using list_ind4; intros Hok Hlen; cbn [be_words flat_map];
    try (cbn in Hlen; discriminate Hlen).
  - reflexivity.
  - inversion_clear Hok as [| ? ? H0 Hok1].
    inversion_clear Hok1 as [| ? ? H1 Hok2].
    inversion_clear Hok2 as [| ? ? H2 Hok3].
    inversion_clear Hok3 as [| ? ? H3 Hrest].
    rewrite word_bytes_packed by lia.
    cbn [List.app]. rewrite IH; [reflexivity | exact Hrest |].
    cbn [List.length] in Hlen.
    replace (S (S (S (S (List.length rest)))))
      with (List.length rest + 1 * 4)%nat in Hlen by lia.
    rewrite Nat.Div0.mod_add in Hlen. exact Hlen.
Qed.

Lemma wordArray_bytes_of_uint8Array (b : bytes) :
  bytes_ok b -> wordArray_bytes (uint8ArrayToWordArray b) = b.
Proof.
  intros Hok. unfold wordArray_bytes, uint8ArrayToWordArray.
  cbn [words sigBytes]. rewrite to_nat_len, pack_words_be by exact Hok.
  apply be_words_bytes. exact Hok.
Qed.

(* ===================================================================== *)
(** * The encoder *)
(* ===================================================================== *)

Lemma store_nat_app_offset (l1 l2 : bytes) (n : nat) (v : Z) :
  store_nat (l1 ++ l2) (List.length l1 + n) v = l1 ++ store_nat l2 n v.
Proof.
  induction l1 as [| x l1 IH]; simpl.
  - reflexivity.
  - rewrite IH. reflexivity.
Qed.

Lemma store_app_offset (l1 l2 : bytes) (k v : Z) :
  0 <= k -> store (l1 ++ l2) (len l1 + k) v = l1 ++ store l2 k v.
Proof.
  intros Hk. unfold store.
  rewrite (ltb_nonneg_false k Hk).
  rewrite ltb_nonneg_false by (pose proof (len_nonneg l1); lia).
  replace (Z.to_nat (len l1 + k)) with (List.length l1 + Z.to_nat k)%nat
    by (unfold len; lia).
  apply store_nat_app_offset.
Qed.

(** The trailer [encryptSave] writes behind the compressed bytes. *)
Lemma pt_padded_of_run (pk : PakoLib) (text : jsstring) :
  let yamlBytes := TextEncoder_encode text in
  let adler := adler32 yamlBytes in
  let n := len yamlBytes in
  pt_padded_of pk text
  = pkcs7Pad
      (deflate pk yamlBytes
         ++ map ToUint8
              [ band adler 0xff; band (sar adler 8) 0xff;
                band (sar adler 16) 0xff; band (sar adler 24) 0xff;
                band n 0xff; band (sar n 8) 0xff;
                band (sar n 16) 0xff; band (sar n 24) 0xff ])
      16.
Proof.
  intros yamlBytes adler n. unfold pt_padded_of.
  fold yamlBytes. fold adler. fold n.
  set (comp := deflate pk yamlBytes).
  rewrite Uint8Array_new_nonneg by (pose proof (len_nonneg comp); lia).
  cbn [bindC].
  rewrite set_fresh by (unfold len; lia). cbn [bindC].
  replace (Z.to_nat (len comp + 8) - List.length comp)%nat with 8%nat
    by (unfold len; lia).
  rewrite !store_app_offset by lia.
  reflexivity.
Qed.

Lemma padded_ok (container : bytes) :
  bytes_ok container ->
  let p := 16 - len container mod 16 in
  bytes_ok (container ++ repeat p (Z.to_nat p))
  /\ len (container ++ repeat p (Z.to_nat p)) mod 16 = 0
  /\ (List.length (container ++ repeat p (Z.to_nat p)) mod 4 = 0)%nat.
Proof.
  intros Hok p.
  pose proof (Z.mod_pos_bound (len container) 16 ltac:(lia)) as Hm.
  assert (Hlen : len (container ++ repeat p (Z.to_nat p)) mod 16 = 0).
  { rewrite len_app, len_repeat, Z2Nat.id by lia.
    unfold p. Z.div_mod_to_equations. lia. }
  split; [| split].
  - apply bytes_ok_app. split; [exact Hok |].
    apply bytes_ok_repeat. lia.
  - exact Hlen.
  - unfold len in Hlen.
    apply Nat2Z.inj. rewrite Nat2Z.inj_mod. simpl Z.of_nat.
    revert Hlen.
    generalize (Z.of_nat (List.length (container ++ repeat p (Z.to_nat p)))).
    intros z Hz. Z.div_mod_to_equations. lia.
Qed.

(** With a block cipher under CryptoJS, [encryptSave] returns the encryption
    of the padded buffer under the derived key. *)
Lemma encryptSave_run (encryptECB decryptECB : bytes -> bytes -> bytes)
  (pk : PakoLib) (text userID : jsstring) (padded key : bytes) :
  cipher_contract encryptECB decryptECB ->
  userID <> [] ->
  pt_padded_of pk text = Normal padded ->
  deriveKey userID = Normal key ->
  bytes_ok key -> List.length key = 32%nat ->
  bytes_ok padded -> len padded mod 16 = 0 ->
  encryptSave
    {| CryptoJS := Some (cryptojs_of_cipher encryptECB decryptECB);
       pako := Some pk |} text userID
  = Normal (encryptECB key padded).
Proof.
  intros Hc Hid Hpad Hkey Hkok Hklen Hpok Hlen.
  destruct userID as [| c userID]; [contradiction |].
  unfold encryptSave. cbn [CryptoJS pako]. rewrite Hpad, Hkey.
  cbn [bindC cryptojs_of_cipher AES_encrypt].
  rewrite !wordArray_bytes_of_uint8Array by assumption.
  cbn [wordArray_of_bytes words].
  rewrite wordsToBytes_spec. f_equal.
  destruct (Hc key padded Hkok Hklen Hpok Hlen) as (Hcok & Hclen & _).
  apply be_words_word_bytes; [exact Hcok |].
  apply Nat2Z.inj. rewrite Nat2Z.inj_mod. simpl Z.of_nat.
  fold (len (encryptECB key padded)). rewrite Hclen.
  revert Hlen. generalize (len padded). intros z Hz.
  Z.div_mod_to_equations. lia.
Qed.

(** And [decryptSave] recovers the padded buffer from it before it
    unpads. *)
Lemma decrypt_unpadded_run (encryptECB decryptECB : bytes -> bytes -> bytes)
  (userID : jsstring) (padded key : bytes) :
  cipher_contract encryptECB decryptECB ->
  deriveKey userID = Normal key ->
  bytes_ok key -> List.length key = 32%nat ->
  bytes_ok padded -> len padded mod 16 = 0 ->
  decrypt_unpadded (cryptojs_of_cipher encryptECB decryptECB)
    (encryptECB key padded) userID
  = pkcs7Unpad padded.
Proof.
  intros Hc Hkey Hkok Hklen Hpok Hlen.
  destruct (Hc key padded Hkok Hklen Hpok Hlen) as (Hcok & Hclen & Hinv).
  unfold decrypt_unpadded. rewrite Hkey, bindM_lift_Normal.
  cbn [cryptojs_of_cipher AES_decrypt].
  rewrite !wordArray_bytes_of_uint8Array by assumption.
  rewrite Hinv. cbn [wordArray_of_bytes words].
  rewrite wordsToBytes_spec, bindM_lift_Normal.
  rewrite be_words_word_bytes.
  - rewrite Uint8Array_new_nonneg by apply len_nonneg.
    rewrite bindM_lift_Normal.
    rewrite subarray_prefix by apply len_nonneg.
    rewrite Hclen, to_nat_len, firstn_all.
    rewrite set_fresh by lia.
    rewrite Nat.sub_diag. cbn [repeat]. rewrite app_nil_r.
    apply bindM_lift_Normal.
  - exact Hpok.
  - apply Nat2Z.inj. rewrite Nat2Z.inj_mod. simpl Z.of_nat.
    fold (len padded). revert Hlen. generalize (len padded). intros z Hz.
    Z.div_mod_to_equations. lia.
Qed.

(** The four bytes the encoder stores for a number are its little-endian
    representation on 32 bits. *)
Lemma le32_source (v : Z) :
  map ToUint8
    [ band v 0xff; band (sar v 8) 0xff; band (sar v 16) 0xff;
      band (sar v 24) 0xff ]
  = le32 v.
Proof.
  rewrite map_ToUint8_bytes by (repeat constructor; apply band_255_byte).
  unfold le32, le_bytes. cbn [seq map Z.of_nat Pos.of_succ_nat Pos.succ].
  rewrite !band_255. unfold sar, ToInt32.
  change (Z.land 8 31) with 8. change (Z.land 16 31) with 16.
  change (Z.land 24 31) with 24.
  rewrite !Z.shiftr_div_pow2 by lia.
  repeat (f_equal; [Z.div_mod_to_equations; lia |]).
  f_equal. Z.div_mod_to_equations; lia.
Qed.

Lemma le32_app_flat (a n : Z) :
  map ToUint8
    [ band a 0xff; band (sar a 8) 0xff; band (sar a 16) 0xff;
      band (sar a 24) 0xff;
      band n 0xff; band (sar n 8) 0xff; band (sar n 16) 0xff;
      band (sar n 24) 0xff ]
  = le32 a ++ le32 n.
Proof.
  rewrite <- !le32_source. reflexivity.
Qed.

Lemma candidate_container (comp trailer : bytes) :
  List.length trailer = 8%nat ->
  candidate (comp ++ trailer) 4 = comp ++ firstn 4 trailer
  /\ candidate (comp ++ trailer) 8 = comp.
Proof.
  intros H. unfold candidate. rewrite length_app, H. split.
  - replace (List.length comp + 8 - 4)%nat with (List.length comp + 4)%nat
      by lia.
    apply firstn_app_2.
  - replace (List.length comp + 8 - 8)%nat with (List.length comp + 0)%nat
      by lia.
    rewrite firstn_app_2. cbn [firstn]. apply app_nil_r.
Qed.

(* ===================================================================== *)
(** * The stand-ins meet the contracts *)
(* ===================================================================== *)

Lemma plain_cipher_contract : cipher_contract plain_cipher plain_cipher.
Proof. intros key p _ _ Hp _. unfold plain_cipher. auto. Qed.

Lemma stored_pako_contract : zlib_contract stored_pako.
Proof.
  intros x Hx. split.
  - constructor; [lia | exact Hx].
  - reflexivity.
Qed.

Lemma stored_pako_header : zlib_header stored_pako.
Proof. intros x _. exists x. reflexivity. Qed.

Lemma chunks_parse_chunks (x extra : bytes) (fuel : nat) :
  (List.length x < fuel)%nat ->
  chunks_parse fuel (flat_map (fun b => [1; b]) x ++ 0 :: extra)
  = Ended x extra.
Proof.
  revert fuel. induction x as [| b x IH]; intros fuel Hfuel;
    (destruct fuel as [| fuel]; [simpl in Hfuel; lia |]).
  - reflexivity.
  - cbn [flat_map List.app chunks_parse Z.eqb Z.ltb Z.compare].
    change (Z.to_nat 1) with 1%nat. cbn [take].
    rewrite IH by (simpl in Hfuel; lia). reflexivity.
Qed.

Lemma chunked_pako_contract : zlib_contract chunked_pako.
Proof.
  intros x Hx. cbn [chunked_pako deflate inflate]. split.
  - unfold chunked_deflate. constructor; [lia |].
    apply bytes_ok_app. split; [| repeat constructor; lia].
    induction Hx as [| b x Hb Hx IH]; cbn [flat_map List.app].
    + constructor.
    + constructor; [lia |]. constructor; assumption.
  - unfold chunked_inflate, chunked_stream, chunked_deflate.
    change (120 =? 120) with true. cbv iota.
    rewrite chunks_parse_chunks; [reflexivity |].
    cbn [List.length]. rewrite length_app. cbn [List.length].
    assert (H : forall l : bytes,
               List.length (flat_map (fun b => [1; b]) l)
               = (2 * List.length l)%nat).
    { induction l as [| c l IHl]; cbn [flat_map List.app List.length];
        [reflexivity | rewrite IHl; lia]. }
    rewrite H. lia.
Qed.

Lemma chunked_pako_header : zlib_header chunked_pako.
Proof. intros x _. eexists. reflexivity. Qed.

(* ===================================================================== *)
(** * The round trip *)
(* ===================================================================== *)

Lemma attempt_of_header (pk : PakoLib) (c rest : bytes) :
  c = 0x78 :: rest ->
  attempt_of pk c
  = match inflate pk c with
    | Normal (Some out) => Accepted out
    | Normal None => NoData
    | Throw e => Failed e
    end.
Proof. intros ->. reflexivity. Qed.

(** Under the contracts of the cipher and of the compressor, with the zlib
    header byte, [encryptSave] returns a file, and what [decryptSave] makes
    of that file is decided by the outcome of inflate on the 4-byte-trim
    candidate, the deflated text followed by its checksum: data is decoded
    and returned, no data is the error, and an exception leads to the
    8-byte-trim candidate, which inflates to the text. *)
Lemma decode_of_encoded (encryptECB decryptECB : bytes -> bytes -> bytes)
  (pk : PakoLib) (text userID : jsstring) :
  cipher_contract encryptECB decryptECB ->
  zlib_contract pk -> zlib_header pk ->
  userID <> [] ->
  bytes_ok (TextEncoder_encode text) ->
  exists saved,
    encryptSave
      {| CryptoJS := Some (cryptojs_of_cipher encryptECB decryptECB);
         pako := Some pk |} text userID = Normal saved
    /\ decryptSave
         {| CryptoJS := Some (cryptojs_of_cipher encryptECB decryptECB);
            pako := Some pk |} saved userID
       = let yb := TextEncoder_encode text in
         let c4 := deflate pk yb ++ le32 (adler32 yb) in
         match inflate pk c4 with
         | Normal (Some out) =>
             ([PakoInflate c4;
               ConsoleLog "Successfully decompressed with trim=4"],
              Normal (TextDecoder_decode out))
         | Normal None => ([PakoInflate c4], Throw DecompressFailure)
         | Throw _ =>
             ([PakoInflate c4; PakoInflate (deflate pk yb);
               ConsoleLog "Successfully decompressed with trim=8"],
              Normal (TextDecoder_decode yb))
         end.
Proof.
  intros Hcipher Hzlib Hheader Hid Hyok. cbv zeta.
  set (yb := TextEncoder_encode text) in *.
  destruct (Hzlib yb Hyok) as [Hcok Hinf].
  destruct (Hheader yb Hyok) as [rest Hcomp].
  set (comp := deflate pk yb) in *.
  pose proof (pt_padded_of_run pk text) as Hpad. cbv zeta in Hpad.
  fold yb in Hpad. fold comp in Hpad.
  rewrite (le32_app_flat (adler32 yb) (len yb)) in Hpad.
  set (trailer := le32 (adler32 yb) ++ le32 (len yb)) in *.
  assert (Htlen : List.length trailer = 8%nat) by reflexivity.
  assert (Htok : bytes_ok trailer).
  { unfold trailer, le32. apply bytes_ok_app. split; apply le_bytes_ok. }
  set (container := comp ++ trailer) in *.
  assert (Hcont : bytes_ok container)
    by (apply bytes_ok_app; split; assumption).
  rewrite pkcs7Pad_16 in Hpad.
  set (p := 16 - len container mod 16) in *.
  assert (Hp : 1 <= p)
    by (pose proof (Z.mod_pos_bound (len container) 16 ltac:(lia)); lia).
  set (padded := container ++ repeat p (Z.to_nat p)) in *.
  destruct (padded_ok container Hcont) as (Hpok & Hplen & _).
  fold p in Hpok, Hplen. fold padded in Hpok, Hplen.
  destruct (deriveKey_total userID) as (u & _ & Huok & Hkey).
  assert (Hkok : bytes_ok (xor_prefix BASE_KEY u))
    by (apply xor_prefix_ok; [apply BASE_KEY_ok | exact Huok]).
  assert (Hklen : List.length (xor_prefix BASE_KEY u) = 32%nat)
    by apply xor_prefix_length.
  assert (Hunpad : pkcs7Unpad padded = ([], Normal container))
    by (apply pkcs7Unpad_padded; exact Hp).
  exists (encryptECB (xor_prefix BASE_KEY u) padded). split.
  - apply (encryptSave_run encryptECB decryptECB pk text userID padded);
      assumption.
  - rewrite (decryptSave_run _ pk _ userID [] container Hid)
      by (rewrite (decrypt_unpadded_run encryptECB decryptECB userID padded
                     (xor_prefix BASE_KEY u)); assumption).
    destruct (candidate_container comp trailer Htlen) as [Hc4 Hc8].
    cbn [trim_walk]. fold container in Hc4, Hc8. rewrite Hc4, Hc8.
    change (firstn 4 trailer) with (le32 (adler32 yb)).
    rewrite (attempt_of_header pk (comp ++ le32 (adler32 yb))
               (rest ++ le32 (adler32 yb)))
      by (rewrite Hcomp; reflexivity).
    rewrite (attempt_of_header pk comp rest Hcomp), Hinf.
    destruct (inflate pk (comp ++ le32 (adler32 yb))) as [[out |] | e];
      reflexivity.
Qed.

(** The container that [encryptSave] pads and encrypts ends with the
    checksum and the length of the text's UTF-8 bytes. *)
Lemma container_trailer (pk : PakoLib) (text : jsstring) :
  bytes_ok (TextEncoder_encode text) ->
  bytes_ok (deflate pk (TextEncoder_encode text)) ->
  exists padded container,
    pt_padded_of pk text = Normal padded
    /\ snd (pkcs7Unpad padded) = Normal container
    /\ final_bytes 8 container =
       le32 (adler32_ref (TextEncoder_encode text))
         ++ le32 (len (TextEncoder_encode text)).
Proof.
  intros Hyok Hcok.
  set (yb := TextEncoder_encode text) in *.
  set (comp := deflate pk yb) in *.
  pose proof (pt_padded_of_run pk text) as Hpad. cbv zeta in Hpad.
  fold yb in Hpad. fold comp in Hpad.
  rewrite (le32_app_flat (adler32 yb) (len yb)) in Hpad.
  set (trailer := le32 (adler32 yb) ++ le32 (len yb)) in *.
  assert (Htlen : List.length trailer = 8%nat) by reflexivity.
  assert (Htok : bytes_ok trailer).
  { unfold trailer, le32. apply bytes_ok_app. split; apply le_bytes_ok. }
  set (container := comp ++ trailer) in *.
  assert (Hcont : bytes_ok container)
    by (apply bytes_ok_app; split; assumption).
  rewrite pkcs7Pad_16 in Hpad.
  set (p := 16 - len container mod 16) in *.
  assert (Hp : 1 <= p)
    by (pose proof (Z.mod_pos_bound (len container) 16 ltac:(lia)); lia).
  set (padded := container ++ repeat p (Z.to_nat p)) in *.
  assert (Hunpad : pkcs7Unpad padded = ([], Normal container))
    by (apply pkcs7Unpad_padded; exact Hp).
  exists padded, container. split; [exact Hpad |].
  split; [rewrite Hunpad; reflexivity |].
  unfold final_bytes, container. rewrite length_app, Htlen.
  replace (List.length comp + 8 - 8)%nat with (List.length comp + 0)%nat
    by lia.
  rewrite skipn_app, Nat.add_0_r, skipn_all, Nat.sub_diag.
  cbn [List.app skipn]. unfold trailer.
  destruct (adler32_eq_ref yb Hyok) as [-> _]. reflexivity.
Qed.

(** Under the contracts of the cipher and of the compressor, with the zlib
    header byte, a text whose UTF-8 encoding decodes to itself survives the
    round trip when the deflated text followed by its four checksum bytes is
    rejected by inflate (or inflated to the text), and the container ends
    with the checksum and the length. *)
Lemma round_trip_general (encryptECB decryptECB : bytes -> bytes -> bytes)
  (pk : PakoLib) (text userID : jsstring) :
  cipher_contract encryptECB decryptECB ->
  zlib_contract pk -> zlib_header pk ->
  trailer_harmless pk (TextEncoder_encode text)
    (le32 (adler32 (TextEncoder_encode text))) ->
  userID <> [] ->
  bytes_ok (TextEncoder_encode text) ->
  TextDecoder_decode (TextEncoder_encode text) = text ->
  round_trip (cryptojs_of_cipher encryptECB decryptECB) pk text userID.
Proof.
  intros Hcipher Hzlib Hheader Htrail Hid Hyok Hutf.
  unfold round_trip. cbv zeta. split.
  - destruct (decode_of_encoded encryptECB decryptECB pk text userID
                Hcipher Hzlib Hheader Hid Hyok) as (saved & Henc & Hdec).
    exists saved. split; [exact Henc |].
    rewrite Hdec. cbv zeta.
    destruct Htrail as [H4 | [e H4]]; rewrite H4; cbn [snd]; f_equal;
      exact Hutf.
  - apply container_trailer; [exact Hyok |].
    apply (Hzlib _ Hyok).
Qed.

Lemma hello_text_utf8 :
  bytes_ok (TextEncoder_encode hello_text)
  /\ TextDecoder_decode (TextEncoder_encode hello_text) = hello_text.
Proof.
  split.
  - unfold bytes_ok. vm_compute TextEncoder_encode. repeat constructor; lia.
  - vm_compute. reflexivity.
Qed.

(** The checksum of "hello: world\n", little-endian. *)
Lemma hello_text_checksum :
  le32 (adler32 (TextEncoder_encode hello_text)) = [0xa1; 0x04; 0x57; 0x22].
Proof. vm_compute. reflexivity. Qed.

(** C1. For the identity "76561198012345678" and the text "hello: world\n",
    under the contracts of the external primitives (the block cipher keeps
    the length of whole blocks and decryption inverts encryption under the
    same key; inflation inverts deflation; a deflated stream begins with the
    byte 0x78; and the deflated text followed by the four checksum bytes
    [a1 04 57 22], which is not a valid stream, is rejected by inflate,
    unless inflate ignores what follows the stream), decoding the encoded
    text gives the text back; and the buffer the encoder passes to the
    cipher, once unpadded, ends with the eight bytes
    [le32 (adler32 (utf8 text)) ++ le32 (len (utf8 text))]. *)
Theorem round_trip_hello_world
  (encryptECB decryptECB : bytes -> bytes -> bytes) (pk : PakoLib)
  (Hcipher : cipher_contract encryptECB decryptECB)
  (Hzlib : zlib_contract pk)
  (Hheader : zlib_header pk)
  (Hinvalid : trailer_harmless pk (TextEncoder_encode hello_text)
                [0xa1; 0x04; 0x57; 0x22]) :
  round_trip (cryptojs_of_cipher encryptECB decryptECB) pk
    hello_text steam_id.
Proof.
  destruct hello_text_utf8 as [Hok Hutf].
  apply round_trip_general;
    [ exact Hcipher | exact Hzlib | exact Hheader
    | rewrite hello_text_checksum; exact Hinvalid
    | discriminate | exact Hok | exact Hutf ].
Qed.

Lemma round_trip_hello_world_witness :
  round_trip (cryptojs_of_cipher plain_cipher plain_cipher)
    chunked_pako hello_text steam_id.
Proof.
  apply (round_trip_hello_world plain_cipher plain_cipher chunked_pako).
  - apply plain_cipher_contract.
  - apply chunked_pako_contract.
  - apply chunked_pako_header.
  - right. eexists. vm_compute. reflexivity.
Defined.

(* ===================================================================== *)
(** * Further properties of the padding *)
(* ===================================================================== *)

Lemma padding_valid_split (buf : bytes) (p : Z) :
  padding_valid buf p ->
  buf = firstn (List.length buf - Z.to_nat p) buf ++ repeat p (Z.to_nat p).
Proof.
  intros [Hn Hall]. unfold final_bytes in Hall.
  rewrite <- (firstn_skipn (List.length buf - Z.to_nat p) buf) at 1.
  f_equal.
  replace (Z.to_nat p)
    with (List.length (skipn (List.length buf - Z.to_nat p) buf)) at 2
    by (rewrite length_skipn; lia).
  apply Forall_eq_repeat.
  eapply Forall_impl; [| exact Hall]. intros x Hx. symmetry. exact Hx.
Qed.

Lemma padding_valid_last (buf : bytes) (p : Z) :
  1 <= p -> padding_valid buf p -> get buf (len buf - 1) = Some p.
Proof.
  intros Hp Hvalid. rewrite (padding_valid_split buf p Hvalid).
  set (front := firstn (List.length buf - Z.to_nat p) buf).
  replace (Z.to_nat p) with (S (Z.to_nat (p - 1))) by lia.
  cbn [repeat]. rewrite repeat_cons, app_assoc. apply get_last.
Qed.

(** X1. [pkcs7Pad] with block size 16 never fails and appends between 1 and
    16 bytes, each equal to their number, so that the length becomes a
    multiple of 16; a buffer whose length is already a multiple of 16 gets a
    whole block of sixteen bytes 0x10. *)
Theorem pkcs7Pad_appends_block (buf : bytes) :
  exists p,
    1 <= p <= 16
    /\ pkcs7Pad buf 16 = Normal (buf ++ repeat p (Z.to_nat p))
    /\ len (buf ++ repeat p (Z.to_nat p)) mod 16 = 0
    /\ (len buf mod 16 = 0 -> p = 16).
Proof.
  pose proof (Z.mod_pos_bound (len buf) 16 ltac:(lia)) as Hm.
  exists (16 - len buf mod 16).
  split; [lia |]. split; [apply pkcs7Pad_16 |]. split.
  - rewrite len_app, len_repeat, Z2Nat.id by lia.
    Z.div_mod_to_equations. lia.
  - intros H. lia.
Qed.

Lemma pkcs7Pad_appends_block_witness :
  pkcs7Pad (repeat 0x41 16) 16
  = Normal (repeat 0x41 16 ++ repeat 16 16).
Proof.
  destruct (pkcs7Pad_appends_block (repeat 0x41 16))
    as (p & Hp & Hpad & _ & Hfull).
  rewrite Hpad, (Hfull eq_refl). reflexivity.
Defined.

Lemma pkcs7Unpad_shape (buf : bytes) (Hok : bytes_ok buf) :
  exists evs out,
    pkcs7Unpad buf = (evs, Normal out)
    /\ prefix_of out buf
    /\ (evs = []
        \/ (evs = [ConsoleWarn "PKCS7 unpad failed, returning padded data"]
            /\ out = buf)).
Proof.
  destruct buf as [| b0 buf0] eqn:Hbuf.
  - exists [], []. split; [reflexivity |].
    split; [exists []; reflexivity | left; reflexivity].
  - rewrite <- Hbuf in *.
    assert (Hne : buf <> []) by (rewrite Hbuf; discriminate).
    destruct (exists_last Hne) as (front & p & Hlast).
    assert (Hget : get buf (len buf - 1) = Some p)
      by (rewrite Hlast; apply get_last).
    assert (Hp : 0 <= p).
    { unfold bytes_ok in Hok. rewrite Forall_forall in Hok.
      apply Hok. rewrite Hlast. apply in_or_app. right. left. reflexivity. }
    destruct (unpad_mismatch (Z.to_nat p) 1 buf p) eqn:E.
    + exists [ConsoleWarn "PKCS7 unpad failed, returning padded data"], buf.
      split.
      * unfold pkcs7Unpad. rewrite Hget, E. reflexivity.
      * split; [exists []; symmetry; apply app_nil_r |].
        right. split; reflexivity.
    + apply unpad_mismatch_valid in E.
      exists [], (firstn (List.length buf - Z.to_nat p) buf). split.
      * apply pkcs7Unpad_valid; assumption.
      * split; [| left; reflexivity].
        exists (skipn (List.length buf - Z.to_nat p) buf).
        symmetry. apply firstn_skipn.
Qed.

(** X2. On a byte buffer [pkcs7Unpad] never throws and never returns more
    than it was given: the result is an initial part of the buffer, and it is
    the whole buffer whenever the warning is emitted, which happens at most
    once. *)
Theorem pkcs7Unpad_returns_prefix (buf : bytes) (Hok : bytes_ok buf) :
  exists evs out,
    pkcs7Unpad buf = (evs, Normal out)
    /\ prefix_of out buf
    /\ (List.length out <= List.length buf)%nat
    /\ (evs = []
        \/ (evs = [ConsoleWarn "PKCS7 unpad failed, returning padded data"]
            /\ out = buf)).
Proof.
  destruct (pkcs7Unpad_shape buf Hok) as (evs & out & Hrun & Hpre & Hevs).
  exists evs, out. split; [exact Hrun |]. split; [exact Hpre |].
  split; [| exact Hevs].
  destruct Hpre as [rest ->]. rewrite length_app. lia.
Qed.

Lemma pkcs7Unpad_returns_prefix_witness :
  exists evs out,
    pkcs7Unpad [0x78; 0x9c; 0x02; 0x02] = (evs, Normal out)
    /\ prefix_of out [0x78; 0x9c; 0x02; 0x02]
    /\ (List.length out <= List.length [0x78; 0x9c; 0x02; 0x02])%nat
    /\ (evs = []
        \/ (evs = [ConsoleWarn "PKCS7 unpad failed, returning padded data"]
            /\ out = [0x78; 0x9c; 0x02; 0x02])).
Proof.
  apply (pkcs7Unpad_returns_prefix [0x78; 0x9c; 0x02; 0x02]).
  unfold bytes_ok. repeat constructor; lia.
Defined.

(** X3. Two edges of [pkcs7Unpad].  A buffer that ends in the byte 0x00 is
    returned whole and without a warning: a padding of zero bytes passes the
    check.  A buffer whose last byte exceeds its length is returned whole
    with the warning: the check reads past the start of the buffer. *)
Theorem pkcs7Unpad_edges (buf : bytes) :
  pkcs7Unpad (buf ++ [0]) = ([], Normal (buf ++ [0]))
  /\ (forall p,
        len (buf ++ [p]) < p ->
        pkcs7Unpad (buf ++ [p])
        = ([ConsoleWarn "PKCS7 unpad failed, returning padded data"],
           Normal (buf ++ [p]))).
Proof.
  split.
  - rewrite (pkcs7Unpad_valid (buf ++ [0]) 0).
    + change (Z.to_nat 0) with 0%nat. rewrite Nat.sub_0_r, firstn_all.
      reflexivity.
    + apply get_last.
    + lia.
    + unfold padding_valid, final_bytes. change (Z.to_nat 0) with 0%nat.
      split; [lia |]. rewrite Nat.sub_0_r, skipn_all. constructor.
  - intros p Hp. apply (pkcs7Unpad_invalid _ p).
    + apply get_last.
    + intros [Hn _]. unfold len in Hp. lia.
Qed.

Lemma pkcs7Unpad_edges_witness :
  pkcs7Unpad ([0x78; 0x01] ++ [5])
  = ([ConsoleWarn "PKCS7 unpad failed, returning padded data"],
     Normal ([0x78; 0x01] ++ [5])).
Proof.
  apply (proj2 (pkcs7Unpad_edges [0x78; 0x01]) 5).
  vm_compute. reflexivity.
Defined.

(** X4. Padding is also a right inverse of unpadding on well-padded blocks:
    if the length of the buffer is a multiple of 16 and its final [p] bytes
    all equal [p], for [p] between 1 and 16, then padding the unpadded buffer
    gives the buffer back. *)
Theorem pkcs7_pad_unpad (buf : bytes) (p : Z)
  (Hlen : len buf mod 16 = 0) (Hp : 1 <= p <= 16)
  (Hvalid : padding_valid buf p) :
  bindM (pkcs7Unpad buf) (fun out => lift (pkcs7Pad out 16))
  = ([], Normal buf).
Proof.
  rewrite (pkcs7Unpad_valid buf p)
    by (try lia; try assumption; apply padding_valid_last; (lia || assumption)).
  cbn [bindM lift].
  set (out := firstn (List.length buf - Z.to_nat p) buf).
  assert (Hout : len out = len buf - p).
  { unfold out, len. rewrite length_firstn.
    destruct Hvalid as [Hn _]. lia. }
  rewrite pkcs7Pad_16. rewrite Hout.
  replace (16 - (len buf - p) mod 16) with p
    by (Z.div_mod_to_equations; lia).
  cbn [List.app]. f_equal. f_equal. symmetry.
  apply padding_valid_split. exact Hvalid.
Qed.

Lemma pkcs7_pad_unpad_witness :
  bindM (pkcs7Unpad (repeat 0x78 13 ++ repeat 3 3))
    (fun out => lift (pkcs7Pad out 16))
  = ([], Normal (repeat 0x78 13 ++ repeat 3 3)).
Proof.
  apply (pkcs7_pad_unpad (repeat 0x78 13 ++ repeat 3 3) 3).
  - vm_compute. reflexivity.
  - lia.
  - unfold padding_valid, final_bytes. simpl.
    split; [lia | repeat constructor].
Defined.

(* ===================================================================== *)
(** * Further properties of the word arrays *)
(* ===================================================================== *)

Lemma zero_pad4_step (a b c d : Z) (l : bytes) :
  zero_pad4 (a :: b :: c :: d :: l) = a :: b :: c :: d :: zero_pad4 l.
Proof.
  unfold zero_pad4. cbn [List.length List.app].
  replace (S (S (S (S (List.length l))))) with (List.length l + 1 * 4)%nat
    by lia.
  rewrite Nat.Div0.mod_add. reflexivity.
Qed.

(** The bytes read back from the words of a byte buffer. *)
Lemma be_words_word_bytes_pad (b : bytes) :
  bytes_ok b -> flat_map word_bytes (be_words b) = zero_pad4 b.
Proof.
  induction b as [| b0 | b0 b1 | b0 b1 b2 | b0 b1 b2 b3 rest IH]
    using list_ind4; intros Hok; cbn [be_words flat_map].
  - reflexivity.
  - inversion_clear Hok as [| ? ? H0 _].
    replace (b0 * 2 ^ 24) with (b0 * 2 ^ 24 + 0 * 2 ^ 16 + 0 * 2 ^ 8 + 0)
      by lia.
    rewrite word_bytes_packed by lia. reflexivity.
  - inversion_clear Hok as [| ? ? H0 Hok1].
    inversion_clear Hok1 as [| ? ? H1 _].
    replace (b0 * 2 ^ 24 + b1 * 2 ^ 16)
      with (b0 * 2 ^ 24 + b1 * 2 ^ 16 + 0 * 2 ^ 8 + 0) by lia.
    rewrite word_bytes_packed by lia. reflexivity.
  - inversion_clear Hok as [| ? ? H0 Hok1].
    inversion_clear Hok1 as [| ? ? H1 Hok2].
    inversion_clear Hok2 as [| ? ? H2 _].
    replace (b0 * 2 ^ 24 + b1 * 2 ^ 16 + b2 * 2 ^ 8)
      with (b0 * 2 ^ 24 + b1 * 2 ^ 16 + b2 * 2 ^ 8 + 0) by lia.
    rewrite word_bytes_packed by lia. reflexivity.
  - inversion_clear Hok as [| ? ? H0 Hok1].
    inversion_clear Hok1 as [| ? ? H1 Hok2].
    inversion_clear Hok2 as [| ? ? H2 Hok3].
    inversion_clear Hok3 as [| ? ? H3 Hrest].
    rewrite word_bytes_packed by lia.
    rewrite zero_pad4_step, IH by exact Hrest. reflexivity.
Qed.

Lemma be_words_int32 (b : bytes) :
  Forall (fun w => - 2 ^ 31 <= w < 2 ^ 31) (be_words b).
Proof.
  induction b as [| b0 | b0 b1 | b0 b1 b2 | b0 b1 b2 b3 rest IH]
    using list_ind4; cbn [be_words];
    repeat constructor; try apply ToInt32_range.
  exact IH.
Qed.

(** X5. The two conversions of the codec between bytes and CryptoJS words
    undo each other: the words [uint8ArrayToWordArray] builds from a byte
    buffer are signed 32-bit integers, [sigBytes] is the length of the
    buffer, and reading the words back as the codec does gives the buffer
    followed by the zero bytes that complete its last group of four, so the
    buffer itself when its length is a multiple of 4. *)
Theorem word_array_round_trip (b : bytes) (Hok : bytes_ok b) :
  wordsToBytes (words (uint8ArrayToWordArray b)) = Normal (zero_pad4 b)
  /\ sigBytes (uint8ArrayToWordArray b) = len b
  /\ Forall (fun w => - 2 ^ 31 <= w < 2 ^ 31)
       (words (uint8ArrayToWordArray b))
  /\ ((List.length b mod 4 = 0)%nat ->
      wordsToBytes (words (uint8ArrayToWordArray b)) = Normal b).
Proof.
  unfold uint8ArrayToWordArray. cbn [words sigBytes].
  rewrite pack_words_be by exact Hok.
  rewrite wordsToBytes_spec.
  split; [f_equal; apply be_words_word_bytes_pad; exact Hok |].
  split; [reflexivity |].
  split; [apply be_words_int32 |].
  intros H4. f_equal. apply be_words_word_bytes; assumption.
Qed.

Lemma word_array_round_trip_witness :
  wordsToBytes (words (uint8ArrayToWordArray [0xff; 0x80; 0x01; 0x7f; 0xfe]))
  = Normal (zero_pad4 [0xff; 0x80; 0x01; 0x7f; 0xfe]).
Proof.
  apply (proj1 (word_array_round_trip [0xff; 0x80; 0x01; 0x7f; 0xfe]
                  ltac:(unfold bytes_ok; repeat constructor; lia))).
Defined.

(* ===================================================================== *)
(** * Further properties of the key derivation *)
(* ===================================================================== *)

Lemma utf16le_units_round_trip (s : jsstring) :
  wf_string s -> utf16le_units (utf16le s) = s.
Proof.
  intros H. induction H as [| c s Hc Hs IH]; cbn [utf16le flat_map List.app].
  - reflexivity.
  - cbn [utf16le_units]. fold (utf16le s). rewrite IH. f_equal.
    Z.div_mod_to_equations. lia.
Qed.

Lemma utf16le_length (s : jsstring) :
  List.length (utf16le s) = (2 * List.length s)%nat.
Proof.
  unfold utf16le. induction s as [| c s IH]; simpl.
  - reflexivity.
  - rewrite IH. lia.
Qed.

(** X6. [utf16leBytes] yields two bytes per code unit, low byte first, and
    loses nothing on a string of 16-bit code units: recombining the pairs
    gives the string back, so two such strings with the same bytes are
    equal. *)
Theorem utf16leBytes_round_trip (s1 s2 : jsstring) (Hwf1 : wf_string s1) :
  List.length (utf16leBytes s1) = (2 * List.length s1)%nat
  /\ bytes_ok (utf16leBytes s1)
  /\ utf16le_units (utf16leBytes s1) = s1
  /\ (wf_string s2 -> utf16leBytes s1 = utf16leBytes s2 -> s1 = s2).
Proof.
  rewrite !utf16leBytes_spec.
  split; [apply utf16le_length |].
  split; [apply utf16le_ok |].
  split; [apply utf16le_units_round_trip; exact Hwf1 |].
  intros Hwf2 Heq.
  rewrite <- (utf16le_units_round_trip s1 Hwf1),
    <- (utf16le_units_round_trip s2 Hwf2), Heq.
  reflexivity.
Qed.

Lemma utf16leBytes_round_trip_witness :
  utf16le_units (utf16leBytes [0x41; 0x20ac; 0xd83d; 0xde00])
  = [0x41; 0x20ac; 0xd83d; 0xde00].
Proof.
  apply (proj1 (proj2 (proj2
           (utf16leBytes_round_trip [0x41; 0x20ac; 0xd83d; 0xde00] []
              ltac:(unfold wf_string; repeat constructor; lia))))).
Defined.

Lemma Normal_inj {A} (a b : A) : Normal a = Normal b -> a = b.
Proof. intros H. congruence. Qed.

Lemma le_bytes_succ (n : nat) (v : Z) :
  le_bytes (S n) v = v mod 256 :: le_bytes n (v / 256).
Proof.
  unfold le_bytes. cbn [seq map]. rewrite <- seq_shift, map_map.
  change (256 ^ Z.of_nat 0) with 1. rewrite Z.div_1_r. f_equal.
  apply map_ext. intros i.
  rewrite Z.div_div by lia.
  rewrite Nat2Z.inj_succ, Z.pow_succ_r by lia. reflexivity.
Qed.

(** Little-endian bytes denote the integer they were cut from, modulo the
    number of bytes. *)
Lemma le_value_le_bytes (n : nat) (v : Z) :
  le_value (le_bytes n v) = v mod 256 ^ Z.of_nat n.
Proof.
  revert v. induction n as [| n IH]; intros v.
  - cbn. rewrite Z.mod_1_r. reflexivity.
  - rewrite le_bytes_succ. cbn [le_value]. rewrite IH.
    rewrite Nat2Z.inj_succ, Z.pow_succ_r by lia.
    rewrite Z.rem_mul_r by lia. reflexivity.
Qed.

Lemma zero_extend_same_length (n : nat) (l1 l2 : list Z) :
  List.length l1 = List.length l2 -> (List.length l1 <= n)%nat ->
  zero_extend n l1 = zero_extend n l2 -> l1 = l2.
Proof.
  revert l1 l2. induction n as [| n IH]; intros l1 l2 Hlen Hn H.
  - destruct l1, l2; simpl in *; try lia. reflexivity.
  - destruct l1 as [| x1 l1], l2 as [| x2 l2]; simpl in Hlen, Hn;
      try discriminate; [reflexivity |].
    cbn [zero_extend] in H. injection H as Hx H.
    f_equal; [exact Hx |]. apply IH; [lia | lia | exact H].
Qed.

(** Only the identity bytes cut and zero-filled to the length of the base
    reach the key. *)
Lemma xor_prefix_zero_extend (base u : list Z) :
  xor_prefix base u = xor_prefix base (zero_extend (List.length base) u).
Proof.
  revert u. induction base as [| b base IH]; intros u.
  - destruct u; reflexivity.
  - destruct u as [| x u]; cbn [List.length zero_extend xor_prefix].
    + rewrite Z.lxor_0_r. f_equal.
      rewrite <- IH. symmetry. apply xor_prefix_nil.
    + f_equal. apply IH.
Qed.

Lemma xor_prefix_zero_extend_eq (base u1 u2 : list Z) :
  zero_extend (List.length base) u1 = zero_extend (List.length base) u2 ->
  xor_prefix base u1 = xor_prefix base u2.
Proof.
  intros H.
  rewrite (xor_prefix_zero_extend base u1), (xor_prefix_zero_extend base u2).
  rewrite H. reflexivity.
Qed.

(** X7. Two Steam identities (17 or more digits) have the same key exactly
    when their decimal values agree modulo 2^64: distinct 64-bit identifiers
    get distinct keys, leading zeros do not matter, and a value beyond 64
    bits collides with its remainder. *)
Theorem deriveKey_steam_equal_iff (s1 s2 : jsstring)
  (H1 : is_steam_identity s1) (H2 : is_steam_identity s2) :
  deriveKey s1 = deriveKey s2
  <-> decimal_value s1 mod 2 ^ 64 = decimal_value s2 mod 2 ^ 64.
Proof.
  pose proof (uid_bytes_of_steam s1 H1) as Hu1.
  pose proof (uid_bytes_of_steam s2 H2) as Hu2.
  rewrite (deriveKey_xor_prefix s1 _ Hu1 (le_bytes_ok _ _)).
  rewrite (deriveKey_xor_prefix s2 _ Hu2 (le_bytes_ok _ _)).
  split.
  - intros H. apply Normal_inj, xor_prefix_inj in H.
    apply zero_extend_same_length in H.
    + apply (f_equal le_value) in H. rewrite !le_value_le_bytes in H.
      change (256 ^ Z.of_nat 8) with (2 ^ 64) in H.
      rewrite !Z.mod_mod in H by lia. exact H.
    + unfold le_bytes. rewrite !length_map. reflexivity.
    + unfold le_bytes. rewrite length_map, length_seq. simpl. lia.
  - intros H. rewrite H. reflexivity.
Qed.

Lemma deriveKey_steam_equal_iff_witness :
  deriveKey (str "76561198012345678")
  = deriveKey (str "18523305271721897294").
Proof.
  apply (deriveKey_steam_equal_iff
           (str "76561198012345678") (str "18523305271721897294")).
  - apply steam_pattern_spec. vm_compute. reflexivity.
  - apply steam_pattern_spec. vm_compute. reflexivity.
  - vm_compute. reflexivity.
Defined.

Lemma zero_extend_utf16le (n : nat) (s : jsstring) :
  zero_extend (2 * n) (utf16le s) = utf16le (zero_extend n s).
Proof.
  revert s. induction n as [| n IH]; intros s.
  - reflexivity.
  - replace (2 * S n)%nat with (S (S (2 * n))) by lia.
    destruct s as [| c s]; cbn [zero_extend utf16le flat_map List.app].
    + fold (utf16le (zero_extend n [])). rewrite <- IH. reflexivity.
    + fold (utf16le s). fold (utf16le (zero_extend n s)).
      rewrite <- IH. reflexivity.
Qed.

Lemma zero_extend_wf (n : nat) (s : jsstring) :
  wf_string s -> wf_string (zero_extend n s).
Proof.
  revert s. induction n as [| n IH]; intros s H; cbn [zero_extend].
  - constructor.
  - destruct H as [| c s Hc Hs].
    + constructor; [lia | apply IH; constructor].
    + constructor; [exact Hc | apply IH; exact Hs].
Qed.

(** X8. Two Epic identities (strings that are not 17 or more digits) have
    the same key exactly when their first 16 code units agree, a missing
    code unit counting as U+0000: the code units beyond the 16th never reach
    the key. *)
Theorem deriveKey_epic_equal_iff (s1 s2 : jsstring)
  (H1 : ~ is_steam_identity s1) (H2 : ~ is_steam_identity s2)
  (Hwf1 : wf_string s1) (Hwf2 : wf_string s2) :
  deriveKey s1 = deriveKey s2 <-> zero_extend 16 s1 = zero_extend 16 s2.
Proof.
  pose proof (uid_bytes_of_epic s1 H1) as Hu1.
  pose proof (uid_bytes_of_epic s2 H2) as Hu2.
  rewrite (deriveKey_xor_prefix s1 _ Hu1 (utf16le_ok _)).
  rewrite (deriveKey_xor_prefix s2 _ Hu2 (utf16le_ok _)).
  split.
  - intros H. apply Normal_inj, xor_prefix_inj in H.
    change (List.length BASE_KEY) with (2 * 16)%nat in H.
    rewrite !zero_extend_utf16le in H.
    rewrite <- (utf16le_units_round_trip (zero_extend 16 s1))
      by (apply zero_extend_wf; exact Hwf1).
    rewrite <- (utf16le_units_round_trip (zero_extend 16 s2))
      by (apply zero_extend_wf; exact Hwf2).
    rewrite H. reflexivity.
  - intros H. f_equal. apply xor_prefix_zero_extend_eq.
    change (List.length BASE_KEY) with (2 * 16)%nat.
    rewrite !zero_extend_utf16le, H. reflexivity.
Qed.

Lemma deriveKey_epic_equal_iff_witness :
  deriveKey (str "0123456789abcdef-first")
  = deriveKey (str "0123456789abcdef-second").
Proof.
  apply (deriveKey_epic_equal_iff
           (str "0123456789abcdef-first") (str "0123456789abcdef-second")).
  - intros H. apply steam_pattern_spec in H. vm_compute in H. discriminate H.
  - intros H. apply steam_pattern_spec in H. vm_compute in H. discriminate H.
  - apply Forall_forall. intros c Hc. vm_compute in Hc.
    repeat (destruct Hc as [<- | Hc]; [lia |]). contradiction.
  - apply Forall_forall. intros c Hc. vm_compute in Hc.
    repeat (destruct Hc as [<- | Hc]; [lia |]). contradiction.
  - vm_compute. reflexivity.
Defined.

(** X9. Identity bytes that agree after truncation to 32 bytes and filling
    with zero bytes up to 32 give the same key, whatever the path that
    produced them: the converse of the collision property, so the key is a
    function of exactly these 32 bytes. *)
Theorem deriveKey_same_bytes_same_key (id1 id2 : jsstring) (r1 r2 : list Z)
  (Hr1 : uid_bytes_of id1 = Normal r1) (Hr2 : uid_bytes_of id2 = Normal r2)
  (Hext : zero_extend 32 r1 = zero_extend 32 r2) :
  deriveKey id1 = deriveKey id2.
Proof.
  destruct (uid_bytes_of_total id1) as (u1 & Hu1 & Hok1).
  destruct (uid_bytes_of_total id2) as (u2 & Hu2 & Hok2).
  assert (u1 = r1) by congruence. assert (u2 = r2) by congruence. subst.
  rewrite (deriveKey_xor_prefix id1 r1 Hr1 Hok1).
  rewrite (deriveKey_xor_prefix id2 r2 Hr2 Hok2).
  f_equal. apply xor_prefix_zero_extend_eq. exact Hext.
Qed.

Lemma deriveKey_same_bytes_same_key_witness :
  deriveKey (str "a") = deriveKey (str "00000000000000097").
Proof.
  apply (deriveKey_same_bytes_same_key
           (str "a") (str "00000000000000097")
           [97; 0] [97; 0; 0; 0; 0; 0; 0; 0]);
    vm_compute; reflexivity.
Defined.

(* ===================================================================== *)
(** * Further properties of the decoder and the encoder *)
(* ===================================================================== *)

Lemma flat_map_word_bytes_ok (ws : list Z) :
  bytes_ok (flat_map word_bytes ws).
Proof.
  induction ws as [| w ws IH]; cbn [flat_map].
  - constructor.
  - apply bytes_ok_app. split; [apply word_bytes_ok | exact IH].
Qed.

Lemma bytes_ok_firstn (n : nat) (l : bytes) :
  bytes_ok l -> bytes_ok (firstn n l).
Proof.
  intros H. rewrite <- (firstn_skipn n l) in H.
  apply bytes_ok_app in H. apply H.
Qed.

Lemma inflate_inputs_app (a b : list event) :
  inflate_inputs (a ++ b) = inflate_inputs a ++ inflate_inputs b.
Proof.
  induction a as [| ev a IH]; cbn [List.app inflate_inputs].
  - reflexivity.
  - destruct ev; cbn [List.app]; rewrite IH; reflexivity.
Qed.

(** What [decryptSave] hands to the trim loop: bytes, no more of them than
    the file has, obtained without any call to inflate. *)
Lemma decrypt_unpadded_shape (cj : CryptoJSLib) (ciph : bytes)
  (userID : jsstring) :
  exists evs pt,
    decrypt_unpadded cj ciph userID = (evs, Normal pt)
    /\ (List.length pt <= List.length ciph)%nat
    /\ bytes_ok pt
    /\ inflate_inputs evs = []
    /\ (evs = []
        \/ evs = [ConsoleWarn "PKCS7 unpad failed, returning padded data"]).
Proof.
  unfold decrypt_unpadded.
  destruct (deriveKey_total userID) as (u & _ & _ & Hk).
  rewrite Hk, bindM_lift_Normal.
  rewrite wordsToBytes_spec, bindM_lift_Normal.
  rewrite Uint8Array_new_nonneg by apply len_nonneg.
  rewrite bindM_lift_Normal.
  rewrite subarray_prefix by apply len_nonneg.
  rewrite to_nat_len.
  rewrite set_fresh by (rewrite length_firstn; lia).
  rewrite bindM_lift_Normal.
  set (ws := words (AES_decrypt cj (uint8ArrayToWordArray ciph)
                      (uint8ArrayToWordArray (xor_prefix BASE_KEY u)))).
  set (src := firstn (List.length ciph) (flat_map word_bytes ws)).
  set (D := src ++ repeat 0 (List.length ciph - List.length src)).
  assert (HD : bytes_ok D).
  { apply bytes_ok_app. split.
    - apply bytes_ok_firstn, flat_map_word_bytes_ok.
    - apply bytes_ok_repeat. lia. }
  assert (HDlen : List.length D = List.length ciph).
  { unfold D. rewrite length_app, repeat_length.
    assert (List.length src <= List.length ciph)%nat
      by (unfold src; rewrite length_firstn; lia).
    lia. }
  destruct (pkcs7Unpad_shape D HD) as (evs & out & Hrun & [rest Hpre] & Hevs).
  exists evs, out. split; [exact Hrun |].
  split; [rewrite <- HDlen, Hpre, length_app; lia |].
  split; [rewrite Hpre in HD; apply bytes_ok_app in HD; apply HD |].
  destruct Hevs as [-> | [-> _]]; split; auto.
Qed.

Lemma attempt_not_skipped (pk : PakoLib) (c : bytes) :
  attempt_of pk c <> Skipped -> exists rest, c = 0x78 :: rest.
Proof.
  unfold attempt_of. destruct c as [| first rest]; [congruence |].
  destruct (Z.eqb_spec first 120) as [-> | Hne]; [| congruence].
  intros _. exists rest. reflexivity.
Qed.

(** The calls to inflate of the walk over the candidates: one per trim at
    most, each on a candidate that starts with 0x78. *)
Lemma trim_walk_inputs (pk : PakoLib) (pt : bytes) (trims : list nat) :
  (List.length (inflate_inputs (fst (trim_walk pk pt trims)))
   <= List.length trims)%nat
  /\ forall input,
       In input (inflate_inputs (fst (trim_walk pk pt trims))) ->
       (exists t, In t trims /\ input = candidate pt t)
       /\ exists rest, input = 0x78 :: rest.
Proof.
  induction trims as [| t trims [IHlen IHin]]; cbn [trim_walk].
  - split; [simpl; lia | intros input []].
  - destruct (attempt_of pk (candidate pt t)) as [| e | | out] eqn:E.
    + split; [simpl; lia |]. intros input Hin.
      destruct (IHin input Hin) as [(t' & Ht' & Hc) Hrest].
      split; [exists t'; split; [right; exact Ht' | exact Hc] | exact Hrest].
    + destruct (trim_walk pk pt trims) as [evs r].
      cbn [fst inflate_inputs] in *. split; [simpl; lia |].
      intros input [<- | Hin].
      * split; [exists t; split; [left; reflexivity | reflexivity] |].
        apply (attempt_not_skipped pk). congruence.
      * destruct (IHin input Hin) as [(t' & Ht' & Hc) Hrest].
        split; [exists t'; split; [right; exact Ht' | exact Hc] |
                 exact Hrest].
    + cbn [fst inflate_inputs]. split; [simpl; lia |].
      intros input [<- | []].
      split; [exists t; split; [left; reflexivity | reflexivity] |].
      apply (attempt_not_skipped pk). congruence.
    + cbn [fst inflate_inputs]. split; [simpl; lia |].
      intros input [<- | []].
      split; [exists t; split; [left; reflexivity | reflexivity] |].
      apply (attempt_not_skipped pk). congruence.
Qed.

(** X10. [decryptSave] fails in three ways only.  An empty identity gives
    "Please enter platform user ID (Steam or Epic)", whatever the libraries;
    with an identity, a missing library gives "Required libraries not
    loaded"; and every other failure is "Zlib decompress failed. Wrong user
    ID or file format?": neither an error thrown by [pako.inflate] nor a
    [RangeError] of an allocation reaches the caller. *)
Theorem decryptSave_three_errors (window : Window) (file : bytes)
  (userID : jsstring) :
  (userID = [] ->
   decryptSave window file userID = ([], Throw MissingIdentity))
  /\ (userID <> [] -> CryptoJS window = None \/ pako window = None ->
      decryptSave window file userID = ([], Throw PrimitivesUnavailable))
  /\ (forall e,
        snd (decryptSave window file userID) = Throw e ->
        e = MissingIdentity \/ e = PrimitivesUnavailable
        \/ e = DecompressFailure).
Proof.
  split; [intros ->; reflexivity |]. split.
  - intros Hid Hlib. destruct userID as [| c userID]; [contradiction |].
    unfold decryptSave. destruct Hlib as [-> | ->].
    + reflexivity.
    + destruct (CryptoJS window); reflexivity.
  - intros e He.
    unfold MissingIdentity, PrimitivesUnavailable, DecompressFailure in *.
    destruct userID as [| c userID].
    + cbn in He. left. congruence.
    + destruct window as [[cj |] [pk |]];
        try (cbn in He; right; left; congruence).
      destruct (decrypt_unpadded_total cj file (c :: userID))
        as (evs & pt & Hpt).
      rewrite (decryptSave_run cj pk file (c :: userID) evs pt
                 ltac:(discriminate) Hpt) in He.
      destruct (snd (trim_walk pk pt [4; 8]%nat)) as [[out |] t];
        cbn [snd] in He; [discriminate He |].
      unfold DecompressFailure in He. right. right. congruence.
Qed.

Lemma decryptSave_three_errors_witness :
  decryptSave {| CryptoJS := None; pako := Some stored_pako |}
    [0x78; 0x01] (str "epic")
  = ([], Throw PrimitivesUnavailable).
Proof.
  apply (proj1 (proj2 (decryptSave_three_errors
                         {| CryptoJS := None; pako := Some stored_pako |}
                         [0x78; 0x01] (str "epic")))).
  - discriminate.
  - left. reflexivity.
Defined.

Lemma pt_padded_of_total (pk : PakoLib) (text : jsstring) :
  exists padded,
    pt_padded_of pk text = Normal padded /\ len padded mod 16 = 0.
Proof.
  pose proof (pt_padded_of_run pk text) as Hrun. cbv zeta in Hrun.
  rewrite pkcs7Pad_16 in Hrun.
  eexists. split; [exact Hrun |].
  match goal with
  | |- len (?c ++ _) mod 16 = 0 => set (container := c)
  end.
  pose proof (Z.mod_pos_bound (len container) 16 ltac:(lia)) as Hm.
  rewrite len_app, len_repeat, Z2Nat.id by lia.
  Z.div_mod_to_equations. lia.
Qed.

Lemma flat_map_word_bytes_length (ws : list Z) :
  List.length (flat_map word_bytes ws) = (4 * List.length ws)%nat.
Proof.
  induction ws as [| w ws IH]; cbn [flat_map List.length].
  - reflexivity.
  - rewrite length_app, IH. cbn [word_bytes List.length]. lia.
Qed.

(** X11. [encryptSave] fails only for an empty identity ("Please enter
    platform user ID (Steam or Epic)") or a missing library ("Required
    libraries not loaded"); with an identity and both libraries it always
    returns, whatever the text, and the result consists of bytes in whole
    groups of four, four for each word of the ciphertext. *)
Theorem encryptSave_two_errors (window : Window) (text userID : jsstring) :
  (userID = [] -> encryptSave window text userID = Throw MissingIdentity)
  /\ (userID <> [] -> CryptoJS window = None \/ pako window = None ->
      encryptSave window text userID = Throw PrimitivesUnavailable)
  /\ (forall cj pk,
        userID <> [] ->
        CryptoJS window = Some cj -> pako window = Some pk ->
        exists saved,
          encryptSave window text userID = Normal saved
          /\ bytes_ok saved
          /\ (List.length saved mod 4 = 0)%nat).
Proof.
  split; [intros ->; reflexivity |]. split.
  - intros Hid Hlib. destruct userID as [| c userID]; [contradiction |].
    unfold encryptSave. destruct Hlib as [-> | ->].
    + reflexivity.
    + destruct (CryptoJS window); reflexivity.
  - intros cj pk Hid Hcj Hpk.
    destruct userID as [| c userID]; [contradiction |].
    unfold encryptSave. rewrite Hcj, Hpk.
    destruct (pt_padded_of_total pk text) as (padded & Hpad & _).
    destruct (deriveKey_total (c :: userID)) as (u & _ & _ & Hkey).
    rewrite Hpad, Hkey. cbn [bindC]. rewrite wordsToBytes_spec.
    eexists. split; [reflexivity |].
    split; [apply flat_map_word_bytes_ok |].
    rewrite flat_map_word_bytes_length.
    rewrite Nat.mul_comm. apply Nat.Div0.mod_mul.
Qed.

Lemma encryptSave_two_errors_witness :
  exists saved,
    encryptSave (plain_window stored_pako) (str "a: 1") (str "epic")
    = Normal saved
    /\ bytes_ok saved /\ (List.length saved mod 4 = 0)%nat.
Proof.
  apply (proj2 (proj2 (encryptSave_two_errors (plain_window stored_pako)
                         (str "a: 1") (str "epic")))
           (cryptojs_of_cipher plain_cipher plain_cipher) stored_pako).
  - discriminate.
  - reflexivity.
  - reflexivity.
Defined.

(** X12. A file of at most four bytes cannot be decoded: with an identity and
    both libraries present, whatever they compute, [decryptSave] fails with
    "Zlib decompress failed. Wrong user ID or file format?" and never calls
    inflate, since both candidates are empty. *)
Theorem decryptSave_short_file (cj : CryptoJSLib) (pk : PakoLib)
  (file : bytes) (userID : jsstring)
  (Hid : userID <> []) (Hshort : (List.length file <= 4)%nat) :
  snd (decryptSave {| CryptoJS := Some cj; pako := Some pk |} file userID)
  = Throw DecompressFailure
  /\ inflate_inputs
       (fst (decryptSave {| CryptoJS := Some cj; pako := Some pk |}
               file userID)) = [].
Proof.
  destruct (decrypt_unpadded_shape cj file userID)
    as (evs & pt & Hpt & Hlen & _ & Hevs & _).
  rewrite (decryptSave_run cj pk file userID evs pt Hid Hpt).
  assert (H4 : candidate pt 4 = []).
  { unfold candidate.
    replace (List.length pt - 4)%nat with 0%nat by lia. reflexivity. }
  assert (H8 : candidate pt 8 = []).
  { unfold candidate.
    replace (List.length pt - 8)%nat with 0%nat by lia. reflexivity. }
  cbn [trim_walk]. rewrite H4, H8. cbn [attempt_of fst snd].
  split; [reflexivity |].
  rewrite app_nil_r. exact Hevs.
Qed.

Lemma decryptSave_short_file_witness :
  snd (decryptSave (plain_window stored_pako) [0x78; 0x01; 0x01] (str "epic"))
  = Throw DecompressFailure
  /\ inflate_inputs
       (fst (decryptSave (plain_window stored_pako) [0x78; 0x01; 0x01]
               (str "epic"))) = [].
Proof.
  apply (decryptSave_short_file
           (cryptojs_of_cipher plain_cipher plain_cipher) stored_pako
           [0x78; 0x01; 0x01] (str "epic")).
  - discriminate.
  - simpl. lia.
Defined.

Lemma decryptSave_calls (cj : CryptoJSLib) (pk : PakoLib) (file : bytes)
  (userID : jsstring) (evs : list event) (pt : bytes) :
  userID <> [] ->
  decrypt_unpadded cj file userID = (evs, Normal pt) ->
  inflate_inputs evs = [] ->
  inflate_inputs
    (fst (decryptSave {| CryptoJS := Some cj; pako := Some pk |}
            file userID))
  = inflate_inputs (fst (trim_walk pk pt [4; 8]%nat)).
Proof.
  intros Hid Hpt Hevs.
  rewrite (decryptSave_run cj pk file userID evs pt Hid Hpt).
  destruct (snd (trim_walk pk pt [4; 8]%nat)) as [[out |] t];
    cbn [fst]; rewrite !inflate_inputs_app, Hevs; cbn [List.app].
  - cbn [inflate_inputs]. apply app_nil_r.
  - reflexivity.
Qed.

(** X13. [decryptSave] calls [pako.inflate] at most twice, and only on a
    buffer that starts with the byte 0x78 and is at least four bytes shorter
    than the file: whatever the window, the file and the identity, nothing
    else is ever handed to the decompressor. *)
Theorem decryptSave_inflate_calls (window : Window) (file : bytes)
  (userID : jsstring) :
  let calls := inflate_inputs (fst (decryptSave window file userID)) in
  (List.length calls <= 2)%nat
  /\ forall input,
       In input calls ->
       (exists rest, input = 0x78 :: rest)
       /\ (List.length input + 4 <= List.length file)%nat.
Proof.
  cbv zeta.
  destruct userID as [| c userID];
    [split; [simpl; lia | intros input []] |].
  destruct window as [[cj |] [pk |]];
    try (split; [simpl; lia | intros input []]).
  destruct (decrypt_unpadded_shape cj file (c :: userID))
    as (evs & pt & Hpt & Hlen & _ & Hevs & _).
  rewrite (decryptSave_calls cj pk file (c :: userID) evs pt
             ltac:(discriminate) Hpt Hevs).
  destruct (trim_walk_inputs pk pt [4; 8]%nat) as [Hcount Hin].
  split; [exact Hcount |].
  intros input Hinput.
  destruct (Hin input Hinput) as [(t & Ht & Hc) Hrest].
  split; [exact Hrest |].
  assert (Hclen : List.length input = (List.length pt - t)%nat)
    by (rewrite Hc; apply candidate_length).
  assert (0 < List.length input)%nat
    by (destruct Hrest as [rest ->]; simpl; lia).
  destruct Ht as [<- | [<- | []]]; lia.
Qed.

Lemma decryptSave_inflate_calls_witness :
  (exists rest, [0x78; 1; 2; 3; 0x78; 5; 6; 7] = 0x78 :: rest)
  /\ (List.length [0x78; 1; 2; 3; 0x78; 5; 6; 7] + 4
      <= List.length
           [0x78; 1; 2; 3; 0x78; 5; 6; 7; 8; 9; 10; 11; 4; 4; 4; 4])%nat.
Proof.
  apply (proj2 (decryptSave_inflate_calls (plain_window stored_pako)
                  [0x78; 1; 2; 3; 0x78; 5; 6; 7; 8; 9; 10; 11; 4; 4; 4; 4]
                  (str "epic"))).
  vm_compute. left. reflexivity.
Defined.

(** X14. Whatever the compressor and the text, the buffer [encryptSave]
    passes to the cipher is laid out as compressed bytes, then the Adler-32
    of the UTF-8 text and its length, each as four little-endian bytes (so
    both modulo 2^32), then between 1 and 16 padding bytes; its length is a
    multiple of 16, and [pkcs7Unpad] gives the container back silently. *)
Theorem encoder_container_layout (pk : PakoLib) (text : jsstring) :
  let yamlBytes := TextEncoder_encode text in
  let container :=
    deflate pk yamlBytes ++ le32 (adler32 yamlBytes)
      ++ le32 (len yamlBytes) in
  exists p,
    1 <= p <= 16
    /\ pt_padded_of pk text = Normal (container ++ repeat p (Z.to_nat p))
    /\ len (container ++ repeat p (Z.to_nat p)) mod 16 = 0
    /\ len (container ++ repeat p (Z.to_nat p))
       = 16 * ((len (deflate pk yamlBytes) + 8) / 16 + 1)
    /\ pkcs7Unpad (container ++ repeat p (Z.to_nat p))
       = ([], Normal container).
Proof.
  intros yamlBytes container.
  pose proof (pt_padded_of_run pk text) as Hrun. cbv zeta in Hrun.
  fold yamlBytes in Hrun.
  rewrite le32_app_flat, pkcs7Pad_16 in Hrun. fold container in Hrun.
  pose proof (Z.mod_pos_bound (len container) 16 ltac:(lia)) as Hm.
  exists (16 - len container mod 16).
  assert (Hclen : len container = len (deflate pk yamlBytes) + 8).
  { unfold container. rewrite !len_app. reflexivity. }
  split; [lia |]. split; [exact Hrun |].
  rewrite len_app, len_repeat, Z2Nat.id by lia.
  split; [Z.div_mod_to_equations; lia |].
  split; [rewrite Hclen; Z.div_mod_to_equations; lia |].
  apply pkcs7Unpad_padded. lia.
Qed.

Lemma lor_shiftl_16 (a b : Z) :
  0 <= a < 65521 -> 0 <= b < 65521 ->
  Z.lor (Z.shiftl b 16) a = b * 65536 + a.
Proof.
  intros Ha Hb. rewrite Z.shiftl_mul_pow2 by lia.
  apply (lor_disjoint _ _ 16); try lia.
  change (2 ^ 16) with 65536. apply Z.mod_mul. lia.
Qed.

(** The two running sums of Adler-32 in closed form. *)
Lemma adler32_fold_closed (buf : bytes) (a b : Z) :
  fst (fold_left adler32_step buf (a, b)) mod 65521
  = (a + byte_sum buf) mod 65521
  /\ snd (fold_left adler32_step buf (a, b)) mod 65521
     = (b + len buf * a + weighted_sum buf) mod 65521.
Proof.
  revert a b. induction buf as [| x rest IH]; intros a b.
  - cbn [fold_left fst snd byte_sum fold_right weighted_sum].
    change (len (@nil Z)) with 0.
    split; f_equal; lia.
  - change (fold_left adler32_step (x :: rest) (a, b))
      with (fold_left adler32_step rest
              ((a + x) mod 65521, (b + (a + x) mod 65521) mod 65521)).
    destruct (IH ((a + x) mod 65521)
                 ((b + (a + x) mod 65521) mod 65521)) as [Hf Hs].
    rewrite Hf, Hs. clear Hf Hs IH.
    cbn [byte_sum fold_right weighted_sum]. fold (byte_sum rest).
    rewrite len_cons.
    set (n := len rest). set (S := byte_sum rest).
    set (W := weighted_sum rest). set (a' := (a + x) mod 65521).
    split.
    + unfold a'. rewrite Zplus_mod_idemp_l. f_equal. lia.
    + rewrite <- Z.add_assoc, Zplus_mod_idemp_l.
      replace (b + a' + (n * a' + W)) with (b + W + (n + 1) * a') by lia.
      replace (b + (n + 1) * a + ((n + 1) * x + W))
        with (b + W + (n + 1) * (a + x)) by lia.
      unfold a'.
      rewrite (Z.add_mod (b + W) ((n + 1) * ((a + x) mod 65521))) by lia.
      rewrite Z.mul_mod_idemp_r by lia.
      rewrite <- Z.add_mod by lia. reflexivity.
Qed.

(** X15. The checksum in closed form: for a byte buffer of length [n], the
    low 16 bits of [adler32] are one plus the sum of the bytes, modulo
    65521, and the high 16 bits are [n] plus the sum in which the byte at
    index [i] counts [n - i] times, modulo 65521. *)
Theorem adler32_closed_form (buf : bytes) (Hok : bytes_ok buf) :
  adler32 buf mod 65536 = (1 + byte_sum buf) mod 65521
  /\ adler32 buf / 65536 = (len buf + weighted_sum buf) mod 65521.
Proof.
  destruct (adler32_eq_ref buf Hok) as [-> _]. unfold adler32_ref.
  destruct (adler32_ref_fold_bounds buf (1, 0)) as [Ha Hb];
    [simpl; lia | simpl; lia |].
  destruct (adler32_fold_closed buf 1 0) as [Hf Hs].
  destruct (fold_left adler32_step buf (1, 0)) as [a b].
  cbn [fst snd] in *.
  rewrite Z.mod_small in Hf, Hs by lia.
  rewrite lor_shiftl_16 by assumption.
  split.
  - rewrite <- Hf. Z.div_mod_to_equations. lia.
  - replace (len buf + weighted_sum buf)
      with (0 + len buf * 1 + weighted_sum buf) by lia.
    rewrite <- Hs. Z.div_mod_to_equations. lia.
Qed.

Lemma adler32_closed_form_witness :
  adler32 [0x61; 0x62; 0x63] mod 65536
  = (1 + byte_sum [0x61; 0x62; 0x63]) mod 65521
  /\ adler32 [0x61; 0x62; 0x63] / 65536
     = (len [0x61; 0x62; 0x63] + weighted_sum [0x61; 0x62; 0x63]) mod 65521.
Proof.
  apply (adler32_closed_form [0x61; 0x62; 0x63]).
  unfold bytes_ok. repeat constructor; lia.
Defined.

(* ===================================================================== *)
(** * ASCII text *)
(* ===================================================================== *)

Lemma TextEncoder_encode_ascii (s : jsstring) :
  is_ascii s -> TextEncoder_encode s = s.
Proof.
  intros H. induction H as [| c s Hc Hs IH]; cbn [TextEncoder_encode].
  - reflexivity.
  - unfold is_high_surrogate, is_low_surrogate, utf8_of_code_point.
    destruct (Z.leb_spec 0xD800 c); [lia |].
    destruct (Z.leb_spec 0xDC00 c); [lia |].
    destruct (Z.ltb_spec c 0x80); [| lia].
    cbn [andb List.app]. rewrite IH. reflexivity.
Qed.

Lemma utf8_decode_from_ascii (s : jsstring) :
  is_ascii s -> utf8_decode_from utf8_init s = s.
Proof.
  intros H. induction H as [| c s Hc Hs IH]; cbn [utf8_decode_from].
  - reflexivity.
  - unfold utf8_step. cbn [bytes_needed utf8_init Z.eqb]. unfold utf8_lead.
    destruct (Z.leb_spec c 0x7F); [| lia].
    cbn [List.app]. fold utf8_init. rewrite IH. reflexivity.
Qed.

Lemma utf16_of_code_points_ascii (s : jsstring) :
  is_ascii s -> flat_map utf16_of_code_point s = s.
Proof.
  intros H. induction H as [| c s Hc Hs IH]; cbn [flat_map].
  - reflexivity.
  - assert (Hc1 : utf16_of_code_point c = [c]).
    { unfold utf16_of_code_point.
      destruct (Z.ltb_spec c 0x10000); [reflexivity | lia]. }
    rewrite Hc1, IH. reflexivity.
Qed.

Lemma TextDecoder_decode_ascii (s : jsstring) :
  is_ascii s -> TextDecoder_decode s = s.
Proof.
  intros H. unfold TextDecoder_decode. cbv zeta.
  match goal with
  | |- flat_map _ (utf8_decode_from _ ?m) = _ => assert (Hbom : m = s)
  end.
  { destruct H as [| c s Hc Hs]; [reflexivity |].
    destruct c as [| p | p]; try reflexivity.
    do 8 (try (destruct p as [p | p |]; try reflexivity)).
    all: exfalso; lia. }
  rewrite Hbom, utf8_decode_from_ascii by exact H.
  apply utf16_of_code_points_ascii. exact H.
Qed.

Lemma is_ascii_bytes_ok (s : jsstring) : is_ascii s -> bytes_ok s.
Proof.
  intros H. eapply Forall_impl; [| exact H]. cbv beta. intros c Hc. lia.
Qed.

(** X16. The round trip of an ASCII text, for every non-empty identity,
    Steam or Epic, is decided by what inflate makes of the 4-byte-trim
    candidate, the deflated text followed by its four checksum bytes.  If
    the block cipher keeps the length of whole blocks and decryption inverts
    encryption, inflation inverts deflation and a deflated stream begins
    with 0x78, then [encryptSave] returns a file, and of that file: when
    inflate rejects the candidate, or ignores the checksum bytes,
    [decryptSave] returns the text and the container ends with the checksum
    and the length of the text; when inflate returns other data,
    [decryptSave] returns the decoding of that data; and when inflate
    returns without data, [decryptSave] fails with "Zlib decompress failed.
    Wrong user ID or file format?" after that one call, although the
    8-byte-trim candidate is the deflated text. *)
Theorem round_trip_ascii
  (encryptECB decryptECB : bytes -> bytes -> bytes) (pk : PakoLib)
  (text userID : jsstring)
  (Hcipher : cipher_contract encryptECB decryptECB)
  (Hzlib : zlib_contract pk)
  (Hheader : zlib_header pk)
  (Hid : userID <> [])
  (Htext : is_ascii text) :
  let window :=
    {| CryptoJS := Some (cryptojs_of_cipher encryptECB decryptECB);
       pako := Some pk |} in
  let yb := TextEncoder_encode text in
  let c4 := deflate pk yb ++ le32 (adler32 yb) in
  (trailer_harmless pk yb (le32 (adler32 yb)) ->
   round_trip (cryptojs_of_cipher encryptECB decryptECB) pk text userID)
  /\ exists saved,
       encryptSave window text userID = Normal saved
       /\ ((exists e, inflate pk c4 = Throw e) ->
           decryptSave window saved userID
           = ([PakoInflate c4; PakoInflate (deflate pk yb);
               ConsoleLog "Successfully decompressed with trim=8"],
              Normal text))
       /\ (forall out,
             inflate pk c4 = Normal (Some out) ->
             decryptSave window saved userID
             = ([PakoInflate c4;
                 ConsoleLog "Successfully decompressed with trim=4"],
                Normal (TextDecoder_decode out)))
       /\ (inflate pk c4 = Normal None ->
           decryptSave window saved userID
           = ([PakoInflate c4], Throw DecompressFailure)).
Proof.
  cbv zeta.
  assert (Hyok : bytes_ok (TextEncoder_encode text)).
  { rewrite TextEncoder_encode_ascii by exact Htext.
    apply is_ascii_bytes_ok. exact Htext. }
  assert (Hutf : TextDecoder_decode (TextEncoder_encode text) = text).
  { rewrite TextEncoder_encode_ascii by exact Htext.
    apply TextDecoder_decode_ascii. exact Htext. }
  split.
  - intros Htrail. apply round_trip_general; assumption.
  - destruct (decode_of_encoded encryptECB decryptECB pk text userID
                Hcipher Hzlib Hheader Hid Hyok) as (saved & Henc & Hdec).
    cbv zeta in Hdec.
    exists saved. split; [exact Henc |].
    split; [| split].
    + intros [e He]. rewrite Hdec, He, Hutf. reflexivity.
    + intros out Hout. rewrite Hdec, Hout. reflexivity.
    + intros Hnone. rewrite Hdec, Hnone. reflexivity.
Qed.

Lemma round_trip_ascii_witness :
  round_trip (cryptojs_of_cipher plain_cipher plain_cipher) chunked_pako
    (str "state: {cash: 999}") (str "epic-user")
  /\ exists saved,
       encryptSave (plain_window chunked_pako) checksum_text steam_id
       = Normal saved
       /\ decryptSave (plain_window chunked_pako) saved steam_id
          = ([PakoInflate
                (deflate chunked_pako (TextEncoder_encode checksum_text)
                   ++ [0x78; 0x01; 0x8c; 0x04])],
             Throw DecompressFailure).
Proof.
  split.
  - apply (proj1 (round_trip_ascii plain_cipher plain_cipher chunked_pako
                    (str "state: {cash: 999}") (str "epic-user")
                    plain_cipher_contract chunked_pako_contract
                    chunked_pako_header ltac:(discriminate)
                    ltac:(apply Forall_forall; intros c Hc; vm_compute in Hc;
                          repeat (destruct Hc as [<- | Hc]; [lia |]);
                          contradiction))).
    right. eexists. vm_compute. reflexivity.
  - destruct (proj2 (round_trip_ascii plain_cipher plain_cipher chunked_pako
                       checksum_text steam_id
                       plain_cipher_contract chunked_pako_contract
                       chunked_pako_header ltac:(discriminate)
                       ltac:(apply Forall_forall; intros c Hc;
                             vm_compute in Hc;
                             repeat (destruct Hc as [<- | Hc]; [lia |]);
                             contradiction)))
      as (saved & Henc & _ & _ & Hnone).
    exists saved. split; [exact Henc |].
    apply Hnone. vm_compute. reflexivity.
Defined.

(* ===================================================================== *)
(** * Files of the other trailer width, and the length of the file *)
(* ===================================================================== *)

(** X17. The decoder accepts the 4-byte-trailer variant that the encoder
    never writes: if the file is the encryption of a padded container made
    of a deflated stream followed by four bytes only, then (cipher and
    compressor meeting their contracts, the stream starting with 0x78)
    [decryptSave] inflates the stream at the first trim, logs trim=4 and
    returns the decoded text, without looking at the four bytes. *)
Theorem decode_four_byte_trailer
  (encryptECB decryptECB : bytes -> bytes -> bytes) (pk : PakoLib)
  (userID : jsstring) (key x trailer : bytes)
  (Hcipher : cipher_contract encryptECB decryptECB)
  (Hzlib : zlib_contract pk)
  (Hheader : zlib_header pk)
  (Hid : userID <> [])
  (Hkey : deriveKey userID = Normal key)
  (Hx : bytes_ok x)
  (Htrailer : bytes_ok trailer)
  (Hlen : List.length trailer = 4%nat) :
  exists padded,
    pkcs7Pad (deflate pk x ++ trailer) 16 = Normal padded
    /\ decryptSave
         {| CryptoJS := Some (cryptojs_of_cipher encryptECB decryptECB);
            pako := Some pk |}
         (encryptECB key padded) userID
       = ([PakoInflate (deflate pk x);
           ConsoleLog "Successfully decompressed with trim=4"],
          Normal (TextDecoder_decode x)).
Proof.
  destruct (Hzlib x Hx) as [Hcok Hinf].
  destruct (Hheader x Hx) as [rest Hcomp].
  set (comp := deflate pk x) in *.
  set (container := comp ++ trailer).
  assert (Hcont : bytes_ok container)
    by (apply bytes_ok_app; split; assumption).
  set (p := 16 - len container mod 16).
  assert (Hp : 1 <= p)
    by (pose proof (Z.mod_pos_bound (len container) 16 ltac:(lia)); lia).
  exists (container ++ repeat p (Z.to_nat p)).
  split; [apply pkcs7Pad_16 |].
  destruct (padded_ok container Hcont) as (Hpok & Hplen & _).
  fold p in Hpok, Hplen.
  destruct (deriveKey_total userID) as (u & _ & Huok & Hk).
  assert (Hku : key = xor_prefix BASE_KEY u) by congruence.
  assert (Hkok : bytes_ok key)
    by (rewrite Hku; apply xor_prefix_ok; [apply BASE_KEY_ok | exact Huok]).
  assert (Hklen : List.length key = 32%nat)
    by (rewrite Hku; apply xor_prefix_length).
  rewrite (decryptSave_run _ pk _ userID [] container Hid)
    by (rewrite (decrypt_unpadded_run encryptECB decryptECB userID
                   (container ++ repeat p (Z.to_nat p)) key);
        try assumption; apply pkcs7Unpad_padded; exact Hp).
  assert (Hc4 : candidate container 4 = comp).
  { unfold candidate, container. rewrite length_app, Hlen.
    replace (List.length comp + 4 - 4)%nat with (List.length comp + 0)%nat
      by lia.
    rewrite firstn_app_2. cbn [firstn]. apply app_nil_r. }
  cbn [trim_walk]. rewrite Hc4.
  assert (H4 : attempt_of pk comp = Accepted x).
  { apply attempt_accepted. split; [exists rest; exact Hcomp | exact Hinf]. }
  rewrite H4. reflexivity.
Qed.

Lemma decode_four_byte_trailer_witness :
  exists padded,
    pkcs7Pad (deflate stored_pako [0x61; 0x3a; 0x31] ++ [9; 9; 9; 9]) 16
    = Normal padded
    /\ decryptSave (plain_window stored_pako)
         (plain_cipher (xor_prefix BASE_KEY (utf16le (str "epic"))) padded)
         (str "epic")
       = ([PakoInflate (deflate stored_pako [0x61; 0x3a; 0x31]);
           ConsoleLog "Successfully decompressed with trim=4"],
          Normal (TextDecoder_decode [0x61; 0x3a; 0x31])).
Proof.
  apply (decode_four_byte_trailer plain_cipher plain_cipher stored_pako
           (str "epic") (xor_prefix BASE_KEY (utf16le (str "epic")))
           [0x61; 0x3a; 0x31] [9; 9; 9; 9]).
  - apply plain_cipher_contract.
  - apply stored_pako_contract.
  - apply stored_pako_header.
  - discriminate.
  - vm_compute. reflexivity.
  - unfold bytes_ok. repeat constructor; lia.
  - unfold bytes_ok. repeat constructor; lia.
  - reflexivity.
Defined.

(** X18. No expansion: when the cipher keeps the length of whole blocks and
    the compressed stream consists of bytes, the file [encryptSave] returns
    has the length of the padded container, the compressed length plus the
    8 trailer bytes rounded up to the next multiple of 16 (a whole block
    more when it is already one). *)
Theorem encryptSave_length
  (encryptECB decryptECB : bytes -> bytes -> bytes) (pk : PakoLib)
  (text userID : jsstring)
  (Hcipher : cipher_contract encryptECB decryptECB)
  (Hid : userID <> [])
  (Hcomp : bytes_ok (deflate pk (TextEncoder_encode text))) :
  exists saved,
    encryptSave
      {| CryptoJS := Some (cryptojs_of_cipher encryptECB decryptECB);
         pako := Some pk |} text userID
    = Normal saved
    /\ len saved
       = 16 * ((len (deflate pk (TextEncoder_encode text)) + 8) / 16 + 1)
    /\ len saved mod 16 = 0.
Proof.
  set (yb := TextEncoder_encode text) in *.
  pose proof (pt_padded_of_run pk text) as Hrun. cbv zeta in Hrun.
  fold yb in Hrun. rewrite le32_app_flat, pkcs7Pad_16 in Hrun.
  set (container := deflate pk yb ++ le32 (adler32 yb) ++ le32 (len yb)) in *.
  assert (Hcont : bytes_ok container).
  { unfold container. apply bytes_ok_app. split; [exact Hcomp |].
    apply bytes_ok_app. split; apply le_bytes_ok. }
  assert (Hclen : len container = len (deflate pk yb) + 8)
    by (unfold container; rewrite !len_app; reflexivity).
  set (p := 16 - len container mod 16) in *.
  destruct (padded_ok container Hcont) as (Hpok & Hplen & _).
  fold p in Hpok, Hplen.
  destruct (deriveKey_total userID) as (u & _ & Huok & Hk).
  assert (Hkok : bytes_ok (xor_prefix BASE_KEY u))
    by (apply xor_prefix_ok; [apply BASE_KEY_ok | exact Huok]).
  assert (Hklen : List.length (xor_prefix BASE_KEY u) = 32%nat)
    by apply xor_prefix_length.
  exists (encryptECB (xor_prefix BASE_KEY u)
            (container ++ repeat p (Z.to_nat p))).
  split.
  - apply (encryptSave_run encryptECB decryptECB pk text userID
             (container ++ repeat p (Z.to_nat p))); assumption.
  - destruct (Hcipher _ _ Hkok Hklen Hpok Hplen) as (_ & Hlen & _).
    rewrite Hlen. split; [| exact Hplen].
    pose proof (Z.mod_pos_bound (len container) 16 ltac:(lia)) as Hm.
    rewrite len_app, len_repeat, Z2Nat.id by (unfold p; lia).
    unfold p. rewrite Hclen in *. Z.div_mod_to_equations. lia.
Qed.

Lemma encryptSave_length_witness :
  exists saved,
    encryptSave (plain_window stored_pako) (str "a: 1") (str "epic")
    = Normal saved
    /\ len saved
       = 16 * ((len (deflate stored_pako (TextEncoder_encode (str "a: 1")))
                + 8) / 16 + 1)
    /\ len saved mod 16 = 0.
Proof.
  apply (encryptSave_length plain_cipher plain_cipher stored_pako
           (str "a: 1") (str "epic")).
  - apply plain_cipher_contract.
  - discriminate.
  - vm_compute. repeat constructor; intros H; discriminate H.
Defined.

(* ===================================================================== *)
(** * The key and the base constant *)
(* ===================================================================== *)





(* ===================================================================== *)
(** * What the decoder reports, and what it depends on *)
(* ===================================================================== *)

(** After the walk, [inflated] holds data only with [trimUsed] 4 or 8, and
    the walk logs nothing. *)
Lemma trim_walk_result (pk : PakoLib) (pt : bytes) :
  (forall out t,
      snd (trim_walk pk pt [4; 8]%nat) = (Some out, t) ->
      t = Some 4 \/ t = Some 8)
  /\ forall msg, ~ In (ConsoleLog msg) (fst (trim_walk pk pt [4; 8]%nat)).
Proof.
  cbn [trim_walk].
  destruct (attempt_of pk (candidate pt 4)) as [| e4 | | out4];
    destruct (attempt_of pk (candidate pt 8)) as [| e8 | | out8];
    cbn [fst snd]; split;
    try (intros out t H; first [discriminate H
                               | injection H as _ <-; auto]);
    intros msg Hin; cbn [In] in Hin;
    repeat (destruct Hin as [Hin | Hin]; [discriminate Hin |]);
    exact Hin.
Qed.

(** X20. [decryptSave] announces every success and nothing else: when it
    returns a text, its last event is the log line "Successfully
    decompressed with trim=4" or "... trim=8"; when it throws, it has logged
    nothing (a padding warning apart). *)
Theorem decryptSave_log (window : Window) (file : bytes)
  (userID : jsstring) :
  (forall text,
      snd (decryptSave window file userID) = Normal text ->
      exists evs t,
        (t = 4 \/ t = 8)
        /\ fst (decryptSave window file userID)
           = evs ++ [ConsoleLog ("Successfully decompressed with trim="
                                   ++ String_of_number t)])
  /\ (forall e,
        snd (decryptSave window file userID) = Throw e ->
        forall msg,
          ~ In (ConsoleLog msg) (fst (decryptSave window file userID))).
Proof.
  destruct userID as [| c userID];
    [split; [intros text H; discriminate H | intros e _ msg []] |].
  destruct window as [[cj |] [pk |]];
    try (split; [intros text H; discriminate H | intros e _ msg []]).
  destruct (decrypt_unpadded_shape cj file (c :: userID))
    as (evs & pt & Hpt & _ & _ & _ & Hevs).
  rewrite (decryptSave_run cj pk file (c :: userID) evs pt
             ltac:(discriminate) Hpt).
  destruct (trim_walk_result pk pt) as [Ht Hnolog].
  destruct (snd (trim_walk pk pt [4; 8]%nat)) as [[out |] t] eqn:E;
    cbn [fst snd]; split.
  - intros text _.
    destruct (Ht out t eq_refl) as [-> | ->];
      [exists (evs ++ fst (trim_walk pk pt [4; 8]%nat)), 4
      | exists (evs ++ fst (trim_walk pk pt [4; 8]%nat)), 8];
      (split; [auto | apply app_assoc]).
  - intros e H. discriminate H.
  - intros text H. discriminate H.
  - intros e _ msg Hin. apply in_app_or in Hin. destruct Hin as [Hin | Hin].
    + destruct Hevs as [-> | ->]; cbn [In] in Hin.
      * exact Hin.
      * destruct Hin as [Hin | Hin]; [discriminate Hin | exact Hin].
    + exact (Hnolog msg Hin).
Qed.

Lemma decryptSave_log_witness :
  exists evs t,
    (t = 4 \/ t = 8)
    /\ fst (decryptSave (plain_window stored_pako)
              [0x78; 1; 2; 3; 0x78; 5; 6; 7; 8; 9; 10; 11; 4; 4; 4; 4]
              (str "epic"))
       = evs ++ [ConsoleLog ("Successfully decompressed with trim="
                               ++ String_of_number t)].
Proof.
  apply (proj1 (decryptSave_log (plain_window stored_pako)
                  [0x78; 1; 2; 3; 0x78; 5; 6; 7; 8; 9; 10; 11; 4; 4; 4; 4]
                  (str "epic"))
           (TextDecoder_decode [1; 2; 3; 0x78; 5; 6; 7])).
  vm_compute. reflexivity.
Defined.



